(** * A shallow embedding of nuclear-js's memoizing evaluator

    Source: [src/evaluator.js].  The evaluator owns a cache that maps the
    fingerprint of a getter to the last value computed for it; [evaluate]
    resolves a key path or a getter against an immutable state tree. *)

From Stdlib Require Import ZArith String.
From stdpp Require Import gmap list.

Set Warnings "-register-all".
Local Open Scope Z_scope.

(** ** JavaScript values *)

(** A key of a key path, or of an [Immutable.Map]. *)
Inductive key : Type :=
| KStr (s : string)
| KNum (n : Z).

(** Values the evaluator passes around.  [VList] and [VMap] are the
    persistent collections of Immutable.js; [VRef] is a reference to a plain
    (mutable) array or object that lives in the heap.  Numbers are
    restricted to integers. *)
Inductive jsvalue : Type :=
| VUndefined
| VNull
| VBool (b : bool)
| VNum (n : Z)
| VStr (s : string)
| VList (items : list jsvalue)
| VMap (fields : list (key * jsvalue))
| VRef (l : nat).

(** Contents of a plain array or object.  A plain composite owns the plain
    composites nested in it, so one heap cell holds the whole tree. *)
Inductive plain : Type :=
| PUndefined
| PNull
| PBool (b : bool)
| PNum (n : Z)
| PStr (s : string)
| PArr (items : list plain)
| PObj (fields : list (string * plain)).

(** The store of plain composites: [VRef l] denotes cell [l]; a new object
    is appended at the end. *)
Abbreviation heap := (list plain).

(** ** Key paths and getters *)

(** What [evaluate] may be handed as [keyPathOrGetter].  [KeyPath] are the
    values [isKeyPath] accepts, [Getter] the values [isGetter] accepts,
    with the results of [getDeps] and [getComputeFn] as arguments;
    [Neither] is any other value.  The compute function is a function
    value, named by an identifier that [apply_fn] below interprets. *)
Inductive kpg : Type :=
| KeyPath (path : list key)
| Getter (deps : list kpg) (computeFn : nat)
| Neither (v : jsvalue).

Definition isKeyPath (x : kpg) : bool :=
  match x with KeyPath _ => true | _ => false end.

Definition isGetter (x : kpg) : bool :=
  match x with Getter _ _ => true | _ => false end.

(** ** The evaluator's state *)

(** A cache entry, [Immutable.Map({stateHashCode, value, args})];
    [stateHashCode] is [null] ([None]) in the entry written when tracking
    starts. *)
Record entry : Type := Entry {
  stateHashCode : option Z;
  value : jsvalue;
  args : jsvalue
}.

(** What a compute function does when applied. *)
Inductive outcome : Type :=
| Returns (v : jsvalue)
| Throws (payload : jsvalue).

(** Errors [evaluate] can end with. *)
Inductive error : Type :=
| InvalidArgument          (* "evaluate must be passed a keyPath or Getter" *)
| TypeError                (* a method called on a value that lacks it *)
| ReferenceError           (* an identifier that is not bound *)
| Thrown (payload : jsvalue). (* thrown by a compute function *)

Inductive result (A : Type) : Type :=
| Ok (a : A)
| Err (e : error).
Arguments Ok {A} a.
Arguments Err {A} e.

(** [__cachedGetters] is the evaluator's field; [heap] is the store of plain
    objects; [calls] is a ghost log with one record per application of a
    compute function: the getter it belongs to and the arguments. *)
Record world : Type := World {
  __cachedGetters : gmap Z entry;
  objects : heap;
  calls : list (kpg * list jsvalue)
}.

(** The collaborators that are not part of [evaluator.js]. *)
Class Externals : Type := {
  (** [require('./hash-code')]: the fingerprint of a getter *)
  hashCode : kpg -> Z;
  (** [state.hashCode()] of an Immutable.js collection *)
  imm_hashCode : jsvalue -> Z;
  (** [state.getIn(path)] of an Immutable.js collection *)
  imm_getIn : jsvalue -> list key -> jsvalue;
  (** [state.has(key)] of an Immutable.js collection *)
  imm_has : jsvalue -> key -> bool;
  (** [helpers.toImmutable] on an array of arguments *)
  toImmutable : heap -> list jsvalue -> jsvalue;
  (** [computeFn.apply(null, args)]: the function may allocate *)
  apply_fn : nat -> list jsvalue -> heap -> outcome * heap
}.

(** ** A state-and-error monad for the method bodies *)

Definition M (A : Type) : Type := world -> result A * world.

Definition ret {A} (a : A) : M A := fun w => (Ok a, w).

Definition throw {A} (e : error) : M A := fun w => (Err e, w).

Definition bind {A B} (m : M A) (k : A -> M B) : M B :=
  fun w => match m w with
           | (Ok a, w') => k a w'
           | (Err e, w') => (Err e, w')
           end.

Declare Scope eval_scope.
Delimit Scope eval_scope with eval.
Notation "x <- m ;; k" := (bind m (fun x => k))
  (at level 100, m at next level, right associativity) : eval_scope.
Notation "m ;;; k" := (bind m (fun _ => k))
  (at level 100, right associativity) : eval_scope.

(** [array.map(f)] with an effectful callback: left to right. *)
Definition mapM {A B} (f : A -> M B) : list A -> M (list B) :=
  fix go (l : list A) : M (list B) :=
    match l with
    | [] => ret []
    | a :: l' => (b <- f a ;; bs <- go l' ;; ret (b :: bs))%eval
    end.

Definition when (b : bool) (m : M unit) : M unit :=
  if b then m else ret tt.

Definition get_cache : M (gmap Z entry) := fun w => (Ok (__cachedGetters w), w).

Definition set_cache (c : gmap Z entry) : M unit :=
  fun w => (Ok tt, World c (objects w) (calls w)).

(** ** Helpers of [utils] and [immutable-helpers] *)

(** Immutable.js collections are the values with [getIn], [has] and
    [hashCode]. *)
Definition isImmutable (v : jsvalue) : bool :=
  match v with VList _ | VMap _ => true | _ => false end.

(** [isArray(val) || isObject(val)]: plain arrays and objects. *)
Definition isArrayOrObject (v : jsvalue) : bool :=
  match v with VRef _ => true | _ => false end.

(** JavaScript truthiness, for [state && state.getIn]. *)
Definition truthy (v : jsvalue) : bool :=
  match v with
  | VUndefined | VNull | VBool false => false
  | VNum n => negb (n =? 0)
  | VStr s => negb (String.eqb s "")
  | _ => true
  end.

(** Modelled from the spec: [utils.cloneDeep] is not part of the source
    file; "defensive copy for dereferenced mutable cache values".  The
    copy is a new object with the same contents. *)
Definition cloneDeep (v : jsvalue) : M jsvalue :=
  fun w => match v with
           | VRef l =>
               match objects w !! l with
               | Some p => (Ok (VRef (length (objects w))),
                            World (__cachedGetters w) (objects w ++ [p]) (calls w))
               | None => (Ok v, w)
               end
           | _ => (Ok v, w)
           end.

(** [deref], lines 20-31. *)
Definition deref (val : jsvalue) : M jsvalue :=
  if isImmutable val then ret val
  else if isArrayOrObject val then cloneDeep val
  else ret val.

Section Evaluator.
Context `{ext : Externals}.

(** [state.hashCode()]: a [TypeError] on a value without the method. *)
Definition state_hashCode (state : jsvalue) : M Z :=
  if isImmutable state then ret (imm_hashCode state) else throw TypeError.

(** [state.has(code)]. *)
Definition state_has (state : jsvalue) (code : Z) : M bool :=
  if isImmutable state then ret (imm_has state (KNum code)) else throw TypeError.

(** [v !== n] for a number [n]. *)
Definition differs_from_number (v : jsvalue) (n : Z) : bool :=
  match v with VNum m => negb (m =? n) | _ => true end.

(** [__isCached], lines 160-166.  Every entry has the key ['value'], so
    [hasIn([code, 'value'])] is the presence of the entry; [&&] does not
    evaluate [state.hashCode()] without one. *)
Definition __isCached (state : jsvalue) (getter : kpg) : M bool :=
  (let code := hashCode getter in
   c <- get_cache ;;
   match c !! code with
   | None => ret false
   | Some e =>
       h <- state_hashCode state ;;
       ret (bool_decide (stateHashCode e = Some h))
   end)%eval.

(** [__hasStaleValue], lines 130-136: the lookups are on [state], not on
    [this.__cachedGetters]. *)
Definition __hasStaleValue (state : jsvalue) (getter : kpg) : M bool :=
  (let code := hashCode getter in
   b <- state_has state code ;;
   if b then
     h <- state_hashCode state ;;
     ret (differs_from_number
            (imm_getIn state [KNum code; KStr "stateHashCode"]) h)
   else ret false)%eval.

(** [__cacheValue], lines 145-152. *)
Definition __cacheValue (state : jsvalue) (getter : kpg)
    (args : list jsvalue) (value : jsvalue) : M unit :=
  (let code := hashCode getter in
   h <- state_hashCode state ;;
   fun w =>
     (Ok tt,
      World (<[code := Entry (Some h) value (toImmutable (objects w) args)]>
               (__cachedGetters w))
            (objects w) (calls w)))%eval.

(** [computeFn.apply(null, args)], logged in [calls]. *)
Definition apply_computeFn (getter : kpg) (fn : nat) (args : list jsvalue)
    : M jsvalue :=
  fun w =>
    let '(o, h) := apply_fn fn args (objects w) in
    let w' := World (__cachedGetters w) h (calls w ++ [(getter, args)]) in
    match o with
    | Returns v => (Ok v, w')
    | Throws p => (Err (Thrown p), w')
    end.

(** The entry written when tracking starts, lines 80-84. *)
Definition placeholder : entry := Entry None VNull VNull.

(** [evaluate], lines 63-124. *)
Fixpoint evaluate (state : jsvalue) (keyPathOrGetter : kpg) (track : bool)
    {struct keyPathOrGetter} : M jsvalue :=
  match keyPathOrGetter with
  | KeyPath path =>
      if truthy state && isImmutable state
      then ret (imm_getIn state path)
      else ret state
  | Neither _ => throw InvalidArgument
  | Getter deps computeFn =>
      (let code := hashCode keyPathOrGetter in
       c <- get_cache ;;
       isTracking <-
         (if track && negb (bool_decide (is_Some (c !! code)))
          then set_cache (<[code := placeholder]> c) ;;; ret true
          else if bool_decide (is_Some (c !! code)) then ret true
          else ret false) ;;
       cached <- __isCached state keyPathOrGetter ;;
       if cached then
         c <- get_cache ;;
         deref (from_option value VUndefined (c !! code))
       else
         stale <- __hasStaleValue state keyPathOrGetter ;;
         if stale then
           (* lines 96-97 read the entry; line 99 then evaluates
              [getDeps(getter)], and [getter] is bound neither in
              [evaluate] nor in the module (the arrow function's parameter
              of that name is in scope in its body only), so the branch
              ends there and lines 99-109 never run *)
           throw ReferenceError
         else
           args <- mapM (fun dep => evaluate state dep track) deps ;;
           evaluatedValue <- apply_computeFn keyPathOrGetter computeFn args ;;
           when isTracking
             (__cacheValue state keyPathOrGetter args evaluatedValue) ;;;
           ret evaluatedValue)%eval
  end.

(** [untrack], lines 172-176. *)
Definition untrack (getter : kpg) (w : world) : world :=
  let code := hashCode getter in
  World (delete code (__cachedGetters w)) (objects w) (calls w).

(** [reset], lines 178-180. *)
Definition reset (w : world) : world :=
  World ∅ (objects w) (calls w).

End Evaluator.

(** The constructor, lines 34-48: an empty cache. *)
Definition new_Evaluator (h : heap) : world := World ∅ h [].

(** ** Notions used to state the properties *)

(** The getters that occur in a key path or getter, itself included. *)
Fixpoint getters_in (x : kpg) : list kpg :=
  match x with
  | Getter deps _ => x :: flat_map getters_in deps
  | _ => []
  end.


(** Every dependency, at any depth, is a key path or a getter: the shape of
    a getter in the data model of the specification. *)
Fixpoint recognized (x : kpg) : bool :=
  match x with
  | KeyPath _ => true
  | Getter deps _ => forallb recognized deps
  | Neither _ => false
  end.

(** The error a run ended with, if any. *)
Definition error_of {A} (r : result A) : option error :=
  match r with Ok _ => None | Err e => Some e end.

(** What the caller of [evaluate] sees of a value: a plain composite shows
    its contents, any other value itself. *)
Definition same_content (h : heap) (v1 v2 : jsvalue) : Prop :=
  match v1, v2 with
  | VRef l1, VRef l2 => h !! l1 = h !! l2
  | _, _ => v1 = v2
  end.

(** The caller writes to a plain object it holds: [returned.push(2)] and
    the like. *)
Definition mutate (l : nat) (p : plain) (w : world) : world :=
  World (__cachedGetters w) (<[l := p]> (objects w)) (calls w).


Section Notions.
Context `{ext : Externals}.

(** The fingerprints of the getters that occur in [x]. *)
Definition getter_codes (x : kpg) : list Z := map hashCode (getters_in x).

(** The world after lines 77-88: a tracked getter without an entry gets the
    entry with nulls. *)
Definition start_tracking (g : kpg) (track : bool) (w : world) : world :=
  if track && negb (bool_decide (is_Some (__cachedGetters w !! hashCode g)))
  then World (<[hashCode g := placeholder]> (__cachedGetters w)) (objects w) (calls w)
  else w.

(** A first-time evaluation of a getter, in the words of the
    specification: an entry is created if [track] is set, every dependency
    is evaluated in order with the same [track], the compute function is
    applied to the values, the entry is overwritten with the new triple if
    [track] is set, and the result is returned. *)
Definition first_evaluation (state : jsvalue) (deps : list kpg) (fn : nat)
    (track : bool) : M jsvalue :=
  (let g := Getter deps fn in
   when track (c <- get_cache ;; set_cache (<[hashCode g := placeholder]> c)) ;;;
   args <- mapM (fun dep => evaluate state dep track) deps ;;
   v <- apply_computeFn g fn args ;;
   when track (__cacheValue state g args v) ;;;
   ret v)%eval.

(** Lines 112-123: the branch that computes. *)
Definition recompute (state : jsvalue) (deps : list kpg) (fn : nat)
    (track isTracking : bool) : M jsvalue :=
  (let g := Getter deps fn in
   args <- mapM (fun dep => evaluate state dep track) deps ;;
   evaluatedValue <- apply_computeFn g fn args ;;
   when isTracking (__cacheValue state g args evaluatedValue) ;;;
   ret evaluatedValue)%eval.

(** Lines 91-111, run once the tracking of lines 77-88 is set up. *)
Definition lookup_or_recompute (state : jsvalue) (deps : list kpg) (fn : nat)
    (track isTracking : bool) : M jsvalue :=
  (let g := Getter deps fn in
   cached <- __isCached state g ;;
   if cached then
     c <- get_cache ;;
     deref (from_option value VUndefined (c !! hashCode g))
   else
     stale <- __hasStaleValue state g ;;
     if stale then throw ReferenceError
     else recompute state deps fn track isTracking)%eval.

End Notions.

(** ** A concrete environment, for running the model *)

Definition key_eqb (a b : key) : bool :=
  match a, b with
  | KStr s, KStr t => String.eqb s t
  | KNum n, KNum m => n =? m
  | _, _ => false
  end.

Fixpoint assoc (k : key) (fields : list (key * jsvalue)) : option jsvalue :=
  match fields with
  | [] => None
  | (k', v) :: rest => if key_eqb k k' then Some v else assoc k rest
  end.

Definition demo_get (v : jsvalue) (k : key) : option jsvalue :=
  match v, k with
  | VMap fields, _ => assoc k fields
  | VList items, KNum n => if 0 <=? n then items !! Z.to_nat n else None
  | _, _ => None
  end.

Fixpoint demo_getIn (v : jsvalue) (path : list key) : jsvalue :=
  match path with
  | [] => v
  | k :: rest =>
      match demo_get v k with
      | Some v' => demo_getIn v' rest
      | None => VUndefined
      end
  end.

Definition demo_has (v : jsvalue) (k : key) : bool :=
  bool_decide (is_Some (demo_get v k)).

Definition key_hash (k : key) : Z :=
  match k with KStr s => Z.of_nat (String.length s) | KNum n => n end.

Fixpoint demo_stateHash (v : jsvalue) : Z :=
  match v with
  | VUndefined => 0
  | VNull => 1
  | VBool b => if b then 3 else 2
  | VNum n => n
  | VStr s => Z.of_nat (String.length s)
  | VList items => fold_right (fun x acc => 31 * acc + demo_stateHash x) 7 items
  | VMap fields =>
      fold_right (fun kv acc => 31 * acc + key_hash (fst kv) + 17 * demo_stateHash (snd kv))
                 11 fields
  | VRef l => Z.of_nat l
  end.

Fixpoint demo_hashCode (x : kpg) : Z :=
  match x with
  | KeyPath path => fold_right (fun k acc => 31 * acc + key_hash k) 5 path
  | Getter deps fn =>
      fold_right (fun d acc => 31 * acc + demo_hashCode d) (1000 + Z.of_nat fn) deps
  | Neither _ => 0
  end.

Fixpoint fromJS (p : plain) : jsvalue :=
  match p with
  | PUndefined => VUndefined
  | PNull => VNull
  | PBool b => VBool b
  | PNum n => VNum n
  | PStr s => VStr s
  | PArr items => VList (map fromJS items)
  | PObj fields => VMap (map (fun sp => (KStr (fst sp), fromJS (snd sp))) fields)
  end.

Definition demo_toImmutable (h : heap) (args : list jsvalue) : jsvalue :=
  VList (map (fun v => match v with
                       | VRef l => from_option fromJS VUndefined (h !! l)
                       | _ => v
                       end) args).

(** Compute functions: 0 returns its first argument, 1 throws, 2 returns a
    new plain array [[1]], 3 returns the Immutable list of its arguments. *)
Definition demo_apply (fn : nat) (args : list jsvalue) (h : heap) : outcome * heap :=
  match fn with
  | 0%nat => (Returns (from_option id VUndefined (head args)), h)
  | 1%nat => (Throws (VStr "boom"), h)
  | 2%nat => (Returns (VRef (length h)), h ++ [PArr [PNum 1]])
  | _ => (Returns (VList args), h)
  end.

Definition demo : Externals := {|
  hashCode := demo_hashCode;
  imm_hashCode := demo_stateHash;
  imm_getIn := demo_getIn;
  imm_has := demo_has;
  toImmutable := demo_toImmutable;
  apply_fn := demo_apply
|}.

Definition state1 : jsvalue := VMap [(KStr "a", VNum 1); (KStr "b", VNum 2)].
Definition state2 : jsvalue := VMap [(KStr "a", VNum 1); (KStr "b", VNum 3)].
Definition getA : kpg := Getter [KeyPath [KStr "a"]] 0.

Definition getArr : kpg := Getter [] 2.
Definition getBoom : kpg := Getter [KeyPath [KStr "a"]] 1.
Definition getNested : kpg := Getter [getA; KeyPath [KStr "b"]] 3.
Definition getBoomNested : kpg := Getter [getA] 1.

(** The world after a first tracked evaluation of [getA] against
    [state1]. *)
Definition world1 : world :=
  snd (@evaluate demo state1 getA true (new_Evaluator [])).

(** A state that has the fingerprint of [getA] among its own keys. *)
Definition state3 : jsvalue :=
  VMap [(KNum (demo_hashCode getA), VNull); (KStr "a", VNum 1)].

(** The world after a first tracked evaluation of [getArr], and the same
    world after the caller has pushed [2] onto the array it was handed. *)
Definition worldArr : world :=
  snd (@evaluate demo state1 getArr true (new_Evaluator [])).

Definition worldArr_mutated : world :=
  mutate 0 (PArr [PNum 1; PNum 2]) worldArr.

(** A getter with an unrecognized value between two dependencies. *)
Definition getBad : kpg := Getter [KeyPath [KStr "a"]; Neither VNull; getA] 0.

(** A getter whose only dependency is unrecognized, and a world in which a
    value is cached for it against [state1]. *)
Definition getOdd : kpg := Getter [Neither VNull] 0.

Definition worldOdd : world :=
  snd (@__cacheValue demo state1 getOdd [] (VNum 7) (new_Evaluator [])).

(** A world in which [getA] has just the entry of nulls. *)
Definition worldNulls : world :=
  @start_tracking demo getA true (new_Evaluator []).

(** * Properties *)

Section Properties.
Context `{ext : Externals}.

Implicit Types (state : jsvalue) (x g : kpg) (w : world) (track : bool).

(** Induction on key paths and getters, with the dependencies covered. *)
Lemma kpg_nested_ind (P : kpg -> Prop) :
  (forall path, P (KeyPath path)) ->
  (forall deps fn, Forall P deps -> P (Getter deps fn)) ->
  (forall v, P (Neither v)) ->
  forall x, P x.
Proof.
  intros HK HG HN. fix IH 1. intros [path|deps fn|v]; [apply HK| |apply HN].
  apply HG. induction deps as [|d deps IHd]; constructor; [apply IH|exact IHd].
Qed.

Lemma evaluate_Getter state deps fn track :
  evaluate state (Getter deps fn) track =
  (let g := Getter deps fn in
   let code := hashCode g in
   c <- get_cache ;;
   isTracking <-
     (if track && negb (bool_decide (is_Some (c !! code)))
      then set_cache (<[code := placeholder]> c) ;;; ret true
      else if bool_decide (is_Some (c !! code)) then ret true
      else ret false) ;;
   cached <- __isCached state g ;;
   if cached then
     c <- get_cache ;;
     deref (from_option value VUndefined (c !! code))
   else
     stale <- __hasStaleValue state g ;;
     if stale then throw ReferenceError
     else
       args <- mapM (fun dep => evaluate state dep track) deps ;;
       evaluatedValue <- apply_computeFn g fn args ;;
       when isTracking (__cacheValue state g args evaluatedValue) ;;;
       ret evaluatedValue)%eval.
Proof. reflexivity. Qed.


(** [mapM] runs the callback on the elements from left to right, each in
    the world the previous one left. *)
Lemma mapM_cons {A B} (f : A -> M B) (a : A) (l : list A) :
  mapM f (a :: l) = (b <- f a ;; bs <- mapM f l ;; ret (b :: bs))%eval.
Proof. reflexivity. Qed.

Lemma evaluate_Getter_start state deps fn track w :
  evaluate state (Getter deps fn) track w =
  lookup_or_recompute state deps fn track
    (track || bool_decide (is_Some (__cachedGetters w !! hashCode (Getter deps fn))))
    (start_tracking (Getter deps fn) track w).
Proof.
  rewrite evaluate_Getter. unfold start_tracking, lookup_or_recompute, recompute.
  cbv beta zeta. unfold bind at 1. unfold get_cache at 1.
  destruct track; cbn [andb orb];
    destruct (bool_decide (is_Some (__cachedGetters w !! hashCode (Getter deps fn))));
    reflexivity.
Qed.

Lemma isCached_run state g w :
  __isCached state g w =
  match __cachedGetters w !! hashCode g with
  | None => (Ok false, w)
  | Some e =>
      if isImmutable state
      then (Ok (bool_decide (stateHashCode e = Some (imm_hashCode state))), w)
      else (Err TypeError, w)
  end.
Proof.
  unfold __isCached, bind, get_cache, state_hashCode.
  destruct (__cachedGetters w !! hashCode g); [|reflexivity].
  destruct (isImmutable state); reflexivity.
Qed.

Lemma hasStaleValue_run state g w :
  exists r, __hasStaleValue state g w = (r, w) /\
            (forall b, r = Ok b -> isImmutable state = true) /\
            (forall w0, __hasStaleValue state g w0 = (r, w0)).
Proof.
  unfold __hasStaleValue, bind, state_has, state_hashCode.
  destruct (isImmutable state); cbn.
  - destruct (imm_has state (KNum (hashCode g))); eexists; split; eauto.
  - eexists; split; [reflexivity|]. split; [discriminate|reflexivity].
Qed.

Lemma deref_run (v : jsvalue) w :
  deref v w = (Ok v, w) \/
  exists l p, v = VRef l /\ objects w !! l = Some p /\
    deref v w = (Ok (VRef (length (objects w))),
                 World (__cachedGetters w) (objects w ++ [p]) (calls w)).
Proof.
  destruct v; try (left; reflexivity).
  unfold deref, cloneDeep; cbn. destruct (objects w !! l) as [p|] eqn:E.
  - right. exists l, p. auto.
  - left. reflexivity.
Qed.

Lemma cacheValue_run state g (vs : list jsvalue) (v : jsvalue) w :
  isImmutable state = true ->
  __cacheValue state g vs v w =
  (Ok tt, World (<[hashCode g := Entry (Some (imm_hashCode state)) v
                                   (toImmutable (objects w) vs)]> (__cachedGetters w))
                (objects w) (calls w)).
Proof.
  intros Hs. unfold __cacheValue, bind, state_hashCode. rewrite Hs. reflexivity.
Qed.


(** ** What an evaluation may change

    [evaluate] changes the world by three kinds of steps only: it writes
    the cache entry of a getter that occurs in its argument, it lets
    [cloneDeep] allocate, and it applies the compute function of such a
    getter.  A relation closed under these steps relates the worlds before
    and after. *)
Section Preservation.
Variable R : world -> world -> Prop.
Variable P : kpg -> Prop.
Hypothesis R_refl : forall w, R w w.
Hypothesis R_trans : forall w1 w2 w3, R w1 w2 -> R w2 w3 -> R w1 w3.
Hypothesis R_write : forall g e w, P g ->
  R w (World (<[hashCode g := e]> (__cachedGetters w)) (objects w) (calls w)).
Hypothesis R_alloc : forall w p,
  R w (World (__cachedGetters w) (objects w ++ [p]) (calls w)).
Hypothesis R_apply : forall g vs h w, P g ->
  R w (World (__cachedGetters w) h (calls w ++ [(g, vs)])).

Lemma mapM_preserves {A B} (f : A -> M B) (l : list A) :
  Forall (fun a => forall w r w', f a w = (r, w') -> R w w') l ->
  forall w r w', mapM f l w = (r, w') -> R w w'.
Proof.
  induction 1 as [|a l Ha _ IH]; intros w r w' E; cbn in E.
  - injection E as _ <-. apply R_refl.
  - unfold bind in E. destruct (f a w) as [[b|e] wa] eqn:Ea.
    + specialize (Ha _ _ _ Ea).
      destruct (mapM f l wa) as [[bs|e] wb] eqn:Eb;
        injection E as _ <-; eauto.
    + injection E as _ <-. eauto.
Qed.

Lemma start_tracking_preserves g track w :
  P g -> R w (start_tracking g track w).
Proof.
  intros Hg. unfold start_tracking.
  destruct (track && _); [apply R_write; exact Hg | apply R_refl].
Qed.

Lemma deref_preserves (v : jsvalue) w r w' :
  deref v w = (r, w') -> R w w'.
Proof.
  intros E. destruct (deref_run v w) as [E'|(l & p & _ & _ & E')];
    rewrite E' in E; injection E as _ <-; [apply R_refl | apply R_alloc].
Qed.

Lemma recompute_preserves state deps fn track isTracking :
  P (Getter deps fn) ->
  Forall (fun d => forall w r w', evaluate state d track w = (r, w') -> R w w') deps ->
  isImmutable state = true ->
  forall w r w', recompute state deps fn track isTracking w = (r, w') -> R w w'.
Proof.
  intros Hg Hdeps Hs w r w' E. unfold recompute, bind in E.
  destruct (mapM _ deps w) as [[vs|e] w2] eqn:Ed;
    pose proof (mapM_preserves _ _ Hdeps _ _ _ Ed) as R2.
  - unfold apply_computeFn in E.
    destruct (apply_fn fn vs (objects w2)) as [[v|p] h] eqn:Ea.
    + set (w3 := World (__cachedGetters w2) h (calls w2 ++ [(Getter deps fn, vs)])) in *.
      assert (R w2 w3) as R3 by (apply R_apply; exact Hg).
      destruct isTracking; cbn [when] in E.
      * rewrite cacheValue_run in E by exact Hs. cbn in E. injection E as _ <-.
        eapply R_trans; [exact R2|]. eapply R_trans; [exact R3|].
        apply (R_write _ _ w3 Hg).
      * cbn in E. injection E as _ <-. eauto.
    + injection E as _ <-. eapply R_trans; [exact R2|]. apply R_apply; exact Hg.
  - injection E as _ <-. exact R2.
Qed.

Lemma evaluate_preserves state track x :
  Forall P (getters_in x) ->
  forall w r w', evaluate state x track w = (r, w') -> R w w'.
Proof.
  induction x as [path|deps fn IH|v] using kpg_nested_ind; intros HP w r w' E.
  - cbn in E. destruct (truthy state && isImmutable state);
      injection E as _ <-; apply R_refl.
  - cbn [getters_in] in HP. apply Forall_cons in HP as [Hg Hsub].
    rewrite evaluate_Getter_start in E.
    pose proof (start_tracking_preserves _ track w Hg) as R1.
    set (w1 := start_tracking _ track w) in *.
    eapply R_trans; [exact R1|].
    unfold lookup_or_recompute, bind in E. rewrite isCached_run in E.
    assert (Forall (fun d => forall w r w', evaluate state d track w = (r, w') -> R w w')
              deps) as Hdeps.
    { apply Forall_flat_map in Hsub. rewrite Forall_forall in IH, Hsub.
      apply Forall_forall. intros d Hd. apply IH; [exact Hd|].
      apply Hsub. exact Hd. }
    assert (forall isT w0,
              match __hasStaleValue state (Getter deps fn) w0 with
              | (Ok stale, w'') =>
                  (if stale then throw ReferenceError
                   else recompute state deps fn track isT) w''
              | (Err e, w'') => (Err e, w'')
              end = (r, w') -> R w0 w') as Hgate.
    { intros isT w0 E0.
      destruct (hasStaleValue_run state (Getter deps fn) w0) as (rs & Es & Him & _).
      rewrite Es in E0. destruct rs as [[|]|e].
      - injection E0 as _ <-. apply R_refl.
      - eapply recompute_preserves; eauto.
      - injection E0 as _ <-. apply R_refl. }
    destruct (__cachedGetters w1 !! _) as [en|] eqn:Ec.
    + destruct (isImmutable state) eqn:Hs.
      * destruct (bool_decide _).
        -- unfold get_cache in E. rewrite Ec in E. cbn in E.
           eapply deref_preserves; exact E.
        -- eapply Hgate; exact E.
      * injection E as _ <-. apply R_refl.
    + eapply Hgate; exact E.
  - cbn in E. injection E as _ <-. apply R_refl.
Qed.

End Preservation.


(** An evaluation leaves alone every entry whose key is not the fingerprint
    of a getter occurring in its argument. *)
Lemma evaluate_frame state track x (k : Z) w r w' :
  k ∉ getter_codes x ->
  evaluate state x track w = (r, w') ->
  __cachedGetters w' !! k = __cachedGetters w !! k.
Proof.
  intros Hk E.
  apply (evaluate_preserves
           (fun w w' => __cachedGetters w' !! k = __cachedGetters w !! k)
           (fun g => hashCode g <> k)) with (state := state) (track := track)
           (x := x) (r := r); try exact E.
  - reflexivity.
  - intros w1 w2 w3 E1 E2. congruence.
  - intros g e w0 Hg. cbn. apply lookup_insert_ne. exact Hg.
  - reflexivity.
  - reflexivity.
  - apply Forall_forall. intros g Hg <-. apply Hk.
    unfold getter_codes. apply list_elem_of_In, in_map, list_elem_of_In, Hg.
Qed.

(** The log only grows, by applications of getters occurring in the
    argument. *)
Lemma evaluate_calls state track x w r w' :
  evaluate state x track w = (r, w') ->
  exists log, calls w' = calls w ++ log /\
              Forall (fun c => fst c ∈ getters_in x) log.
Proof.
  intros E.
  apply (evaluate_preserves
           (fun w w' => exists log, calls w' = calls w ++ log /\
                          Forall (fun c => fst c ∈ getters_in x) log)
           (fun g => g ∈ getters_in x)) with (state := state) (track := track)
           (x := x) (r := r); try exact E.
  - intros w0. exists []. rewrite app_nil_r. auto.
  - intros w1 w2 w3 (l1 & E1 & F1) (l2 & E2 & F2). exists (l1 ++ l2).
    rewrite E2, E1, app_assoc. split; [reflexivity|]. apply Forall_app; auto.
  - intros g e w0 _. exists []. cbn. rewrite app_nil_r. auto.
  - intros w0 p. exists []. cbn. rewrite app_nil_r. auto.
  - intros g vs h w0 Hg. exists [(g, vs)]. cbn. auto.
  - apply Forall_forall. auto.
Qed.


Lemma mapM_frame state track (deps : list kpg) (k : Z) w r w' :
  k ∉ flat_map getter_codes deps ->
  mapM (fun dep => evaluate state dep track) deps w = (r, w') ->
  __cachedGetters w' !! k = __cachedGetters w !! k.
Proof.
  intros Hk E.
  apply (mapM_preserves
           (fun w w' => __cachedGetters w' !! k = __cachedGetters w !! k))
    with (f := fun dep => evaluate state dep track) (l := deps) (r := r);
    try exact E.
  - reflexivity.
  - intros w1 w2 w3 E1 E2. congruence.
  - apply Forall_forall. intros d Hd w0 r0 w0' E0.
    eapply evaluate_frame; [|exact E0]. intros Hin. apply Hk.
    apply list_elem_of_In, in_flat_map. exists d.
    split; apply list_elem_of_In; assumption.
Qed.





(** ** Key paths and unrecognized arguments *)

(** C5: a key path evaluates to [state.getIn(path)] on a state that
    supports path lookup and to the state itself on any other state; the
    cache, and the rest of the world, is as before. *)
Theorem evaluate_KeyPath state path track w :
  evaluate state (KeyPath path) track w =
  (Ok (if isImmutable state then imm_getIn state path else state), w).
Proof.
  cbn [evaluate]. destruct (isImmutable state) eqn:Hs.
  - destruct state; try discriminate; reflexivity.
  - rewrite andb_false_r. reflexivity.
Qed.

Lemma mapM_not_invalid {A B} (f : A -> M B) (l : list A) :
  Forall (fun a => forall w, error_of (fst (f a w)) <> Some InvalidArgument) l ->
  forall w, error_of (fst (mapM f l w)) <> Some InvalidArgument.
Proof.
  induction 1 as [|a l Ha _ IH]; intros w; cbn; [discriminate|].
  unfold bind. specialize (Ha w). destruct (f a w) as [[b|e] wa]; [|exact Ha].
  specialize (IH wa). destruct (mapM f l wa) as [[bs|e] wb]; [discriminate|exact IH].
Qed.

Lemma recompute_not_invalid state deps fn track isTracking w :
  isImmutable state = true ->
  Forall (fun d => forall w, error_of (fst (evaluate state d track w)) <> Some InvalidArgument) deps ->
  error_of (fst (recompute state deps fn track isTracking w)) <> Some InvalidArgument.
Proof.
  intros Hs Hdeps. unfold recompute, bind.
  pose proof (mapM_not_invalid _ _ Hdeps w) as Hm.
  destruct (mapM _ deps w) as [[vs|e] w2]; [|exact Hm].
  unfold apply_computeFn. destruct (apply_fn fn vs (objects w2)) as [[v|p] h];
    [|discriminate].
  destruct isTracking; cbn [when]; [rewrite cacheValue_run by exact Hs|];
    discriminate.
Qed.

Lemma evaluate_recognized state track x :
  recognized x = true ->
  forall w, error_of (fst (evaluate state x track w)) <> Some InvalidArgument.
Proof.
  induction x as [path|deps fn IH|v] using kpg_nested_ind; intros Hx w.
  - cbn [evaluate]. destruct (truthy state && isImmutable state); discriminate.
  - cbn [recognized] in Hx. rewrite forallb_forall in Hx.
    assert (Forall (fun d => forall w, error_of (fst (evaluate state d track w))
                                      <> Some InvalidArgument) deps) as Hdeps.
    { rewrite Forall_forall in IH. apply Forall_forall. intros d Hd.
      apply IH; [exact Hd|]. apply Hx, list_elem_of_In, Hd. }
    rewrite evaluate_Getter_start. generalize (start_tracking (Getter deps fn) track w).
    intros w1. unfold lookup_or_recompute, bind. rewrite isCached_run.
    assert (forall isT,
              error_of (fst match __hasStaleValue state (Getter deps fn) w1 with
                  | (Ok stale, w'') =>
                      (if stale then throw ReferenceError
                       else recompute state deps fn track isT) w''
                  | (Err e, w'') => (Err e, w'')
                  end) <> Some InvalidArgument) as Hgate.
    { intros isT.
      destruct (hasStaleValue_run state (Getter deps fn) w1) as (rs & Es & Him & _).
      rewrite Es. destruct rs as [[|]|e]; cbn.
      - discriminate.
      - apply recompute_not_invalid; eauto.
      - unfold __hasStaleValue, bind, state_has, state_hashCode in Es.
        destruct (isImmutable state).
        + cbn in Es. destruct (imm_has state _); discriminate.
        + injection Es as <-. discriminate. }
    destruct (__cachedGetters w1 !! _) as [en|] eqn:Ec; [|apply Hgate].
    destruct (isImmutable state); [|discriminate].
    destruct (bool_decide _); [|apply Hgate].
    unfold get_cache. rewrite Ec. cbn.
    destruct (deref_run (value en) w1) as [E'|(l & p & _ & _ & E')];
      rewrite E'; discriminate.
  - discriminate.
Qed.

(** C6, as the code has it: an argument that [isKeyPath] and [isGetter]
    both refuse makes [evaluate] throw the invalid-argument error at once,
    with the cache (and the world) as before; a key path, or a getter whose
    dependencies are key paths and getters at every depth, never makes it
    throw that error.  A getter with another value among its dependencies is
    in neither case. *)
Theorem evaluate_InvalidArgument state track w :
  (forall x, isKeyPath x || isGetter x = false ->
     evaluate state x track w = (Err InvalidArgument, w)) /\
  (forall x, recognized x = true ->
     fst (evaluate state x track w) <> Err InvalidArgument).
Proof.
  split.
  - intros [path|deps fn|v] Hx; try discriminate. reflexivity.
  - intros x Hx E. apply (evaluate_recognized state track x Hx w).
    rewrite E. reflexivity.
Qed.

(** ** [untrack] and [reset] *)

Lemma hasStaleValue_immutable state g w b :
  fst (__hasStaleValue state g w) = Ok b -> isImmutable state = true.
Proof.
  destruct (hasStaleValue_run state g w) as (rs & Es & Him & _).
  rewrite Es. cbn. intros ->. eapply Him. reflexivity.
Qed.

Lemma hasStaleValue_any_world state g w w0 b :
  fst (__hasStaleValue state g w) = Ok b ->
  __hasStaleValue state g w0 = (Ok b, w0).
Proof.
  destruct (hasStaleValue_run state g w) as (rs & Es & _ & Eall).
  rewrite Es. cbn. intros ->. apply Eall.
Qed.

(** On a state tree that does not have the fingerprint among its keys the
    test of lines 130-136 is negative. *)
Lemma hasStaleValue_without_key state g w :
  isImmutable state = true ->
  imm_has state (KNum (hashCode g)) = false ->
  __hasStaleValue state g w = (Ok false, w).
Proof.
  intros Hs Hk. unfold __hasStaleValue, bind, state_has.
  rewrite Hs. cbn. rewrite Hk. reflexivity.
Qed.

Lemma evaluate_without_entry state deps fn track w :
  __cachedGetters w !! hashCode (Getter deps fn) = None ->
  fst (__hasStaleValue state (Getter deps fn) w) = Ok false ->
  evaluate state (Getter deps fn) track w = first_evaluation state deps fn track w.
Proof.
  intros Hnone Hgate. rewrite evaluate_Getter_start.
  pose proof (hasStaleValue_immutable _ _ _ _ Hgate) as Hs.
  unfold start_tracking, first_evaluation. rewrite Hnone.
  rewrite bool_decide_eq_false_2 by (intros [? ?]; discriminate).
  rewrite andb_true_r, orb_false_r. cbv zeta.
  unfold lookup_or_recompute, recompute, bind, when, get_cache, set_cache, ret.
  rewrite isCached_run.
  destruct track; cbn [__cachedGetters objects calls].
  - rewrite lookup_insert_eq, Hs. cbn [stateHashCode placeholder].
    rewrite bool_decide_eq_false_2 by discriminate.
    rewrite (hasStaleValue_any_world _ _ _ _ _ Hgate). reflexivity.
  - rewrite Hnone, (hasStaleValue_any_world _ _ _ _ _ Hgate). reflexivity.
Qed.

(** [untrack] deletes the entry of the getter's fingerprint and no other
    entry; the next [evaluate] of the getter, on a state whose own keys do
    not trip the test of line 133, is a first-time evaluation. *)
Theorem untrack_removes_one_entry state deps fn track w :
  let g := Getter deps fn in
  __cachedGetters (untrack g w) !! hashCode g = None /\
  (forall k, k <> hashCode g ->
     __cachedGetters (untrack g w) !! k = __cachedGetters w !! k) /\
  (fst (__hasStaleValue state g w) = Ok false ->
   evaluate state g track (untrack g w) =
   first_evaluation state deps fn track (untrack g w)).
Proof.
  cbv zeta. split; [apply lookup_delete_eq|].
  split; [intros k Hk; apply lookup_delete_ne; congruence|].
  intros Hgate. apply evaluate_without_entry.
  - apply lookup_delete_eq.
  - rewrite (hasStaleValue_any_world _ _ _ _ _ Hgate). reflexivity.
Qed.

(** [reset] leaves an empty cache; the next [evaluate] of any getter, on a
    state whose own keys do not trip the test of line 133, is a first-time
    evaluation. *)
Theorem reset_clears_cache state deps fn track w :
  __cachedGetters (reset w) = ∅ /\
  (fst (__hasStaleValue state (Getter deps fn) w) = Ok false ->
   evaluate state (Getter deps fn) track (reset w) =
   first_evaluation state deps fn track (reset w)).
Proof.
  split; [reflexivity|].
  intros Hgate. apply evaluate_without_entry.
  - apply lookup_empty.
  - rewrite (hasStaleValue_any_world _ _ _ _ _ Hgate). reflexivity.
Qed.

(** C10: [untrack] of a getter without an entry changes nothing, and a
    second [untrack] of the same getter changes nothing more. *)
Theorem untrack_idempotent g w :
  (__cachedGetters w !! hashCode g = None -> untrack g w = w) /\
  untrack g (untrack g w) = untrack g w.
Proof.
  split.
  - intros Hnone. unfold untrack. rewrite delete_id by exact Hnone.
    destruct w; reflexivity.
  - unfold untrack. cbn [__cachedGetters objects calls].
    rewrite delete_delete_eq. reflexivity.
Qed.

(** ** The branch that computes *)

Lemma isCached_after_start state g track w :
  isImmutable state = true ->
  (forall e, __cachedGetters w !! hashCode g = Some e ->
             stateHashCode e <> Some (imm_hashCode state)) ->
  __isCached state g (start_tracking g track w) =
  (Ok false, start_tracking g track w).
Proof.
  intros Hs Hne. rewrite isCached_run, Hs. unfold start_tracking.
  destruct (__cachedGetters w !! hashCode g) as [e|] eqn:Ec.
  - rewrite bool_decide_eq_true_2 by eauto. rewrite andb_false_r, Ec.
    rewrite bool_decide_eq_false_2 by eauto. reflexivity.
  - rewrite bool_decide_eq_false_2 by (intros [? ?]; discriminate).
    rewrite andb_true_r. destruct track; cbn [negb __cachedGetters].
    + rewrite lookup_insert_eq. cbn.
      rewrite bool_decide_eq_false_2 by discriminate. reflexivity.
    + rewrite Ec. reflexivity.
Qed.


(** ** How a getter's evaluation can end *)

(** A returning evaluation of a getter is an exact hit or a computation. *)
Lemma evaluate_Getter_Ok state deps fn track w v w' :
  let g := Getter deps fn in
  let w0 := start_tracking g track w in
  evaluate state g track w = (Ok v, w') ->
  isImmutable state = true /\
  ((exists e, __cachedGetters w0 !! hashCode g = Some e /\
              stateHashCode e = Some (imm_hashCode state) /\
              deref (value e) w0 = (Ok v, w')) \/
   (exists vs wd h,
      (forall e, __cachedGetters w0 !! hashCode g = Some e ->
                 stateHashCode e <> Some (imm_hashCode state)) /\
      mapM (fun dep => evaluate state dep track) deps w0 = (Ok vs, wd) /\
      apply_fn fn vs (objects wd) = (Returns v, h) /\
      w' = World (if track || bool_decide (is_Some (__cachedGetters w !! hashCode g))
                  then <[hashCode g := Entry (Some (imm_hashCode state)) v
                                         (toImmutable h vs)]> (__cachedGetters wd)
                  else __cachedGetters wd)
                 h (calls wd ++ [(g, vs)]))).
Proof.
  intros g w0 E. subst g. rewrite evaluate_Getter_start in E. fold w0 in E.
  unfold lookup_or_recompute, bind in E. rewrite isCached_run in E.
  assert (forall isT,
            match __hasStaleValue state (Getter deps fn) w0 with
            | (Ok stale, w'') =>
                (if stale then throw ReferenceError
                 else recompute state deps fn track isT) w''
            | (Err e, w'') => (Err e, w'')
            end = (Ok v, w') ->
            isImmutable state = true /\
            exists vs wd h,
              mapM (fun dep => evaluate state dep track) deps w0 = (Ok vs, wd) /\
              apply_fn fn vs (objects wd) = (Returns v, h) /\
              w' = World (if isT
                          then <[hashCode (Getter deps fn) :=
                                   Entry (Some (imm_hashCode state)) v
                                         (toImmutable h vs)]> (__cachedGetters wd)
                          else __cachedGetters wd)
                         h (calls wd ++ [(Getter deps fn, vs)])) as Hgate.
  { intros isT E0.
    destruct (hasStaleValue_run state (Getter deps fn) w0) as (rs & Es & Him & _).
    rewrite Es in E0. destruct rs as [[|]|e]; try discriminate.
    assert (isImmutable state = true) as Hs by eauto. split; [exact Hs|].
    unfold recompute, bind in E0.
    destruct (mapM _ deps w0) as [[vs|e] wd]; [|discriminate].
    unfold apply_computeFn in E0.
    destruct (apply_fn fn vs (objects wd)) as [[v0|p] h] eqn:Ea; [|discriminate].
    exists vs, wd, h. split; [reflexivity|].
    destruct isT; cbn [when] in E0.
    - rewrite cacheValue_run in E0 by exact Hs. cbn in E0.
      injection E0 as <- <-. auto.
    - cbn in E0. injection E0 as <- <-. auto. }
  destruct (__cachedGetters w0 !! _) as [en|] eqn:Ec.
  - destruct (isImmutable state) eqn:Hs; [|discriminate].
    split; [reflexivity|]. destruct (bool_decide _) eqn:Eh.
    + left. exists en. apply bool_decide_eq_true_1 in Eh.
      unfold get_cache in E. rewrite Ec in E. auto.
    + right. apply bool_decide_eq_false_1 in Eh.
      destruct (Hgate _ E) as (_ & vs & wd & h & ? & ? & ?).
      exists vs, wd, h. split; [|auto]. intros e [= <-]. exact Eh.
  - destruct (Hgate _ E) as (Hs & vs & wd & h & ? & ? & ?).
    split; [exact Hs|]. right. exists vs, wd, h. split; [discriminate|auto].
Qed.

(** A failing evaluation of a getter stops at one of the tests, in a
    dependency, or in the compute function; never after it. *)
Lemma evaluate_Getter_Err state deps fn track w err w' :
  let g := Getter deps fn in
  let w0 := start_tracking g track w in
  evaluate state g track w = (Err err, w') ->
  w' = w0 \/
  mapM (fun dep => evaluate state dep track) deps w0 = (Err err, w') \/
  (exists vs wd p h,
     mapM (fun dep => evaluate state dep track) deps w0 = (Ok vs, wd) /\
     apply_fn fn vs (objects wd) = (Throws p, h) /\
     w' = World (__cachedGetters wd) h (calls wd ++ [(g, vs)])).
Proof.
  intros g w0 E. subst g. rewrite evaluate_Getter_start in E. fold w0 in E.
  unfold lookup_or_recompute, bind in E. rewrite isCached_run in E.
  assert (forall isT,
            match __hasStaleValue state (Getter deps fn) w0 with
            | (Ok stale, w'') =>
                (if stale then throw ReferenceError
                 else recompute state deps fn track isT) w''
            | (Err e, w'') => (Err e, w'')
            end = (Err err, w') ->
            w' = w0 \/
            mapM (fun dep => evaluate state dep track) deps w0 = (Err err, w') \/
            (exists vs wd p h,
               mapM (fun dep => evaluate state dep track) deps w0 = (Ok vs, wd) /\
               apply_fn fn vs (objects wd) = (Throws p, h) /\
               w' = World (__cachedGetters wd) h
                          (calls wd ++ [(Getter deps fn, vs)]))) as Hgate.
  { intros isT E0.
    destruct (hasStaleValue_run state (Getter deps fn) w0) as (rs & Es & Him & _).
    rewrite Es in E0. destruct rs as [[|]|e].
    - injection E0 as _ <-. auto.
    - assert (isImmutable state = true) as Hs by eauto.
      unfold recompute, bind in E0.
      destruct (mapM _ deps w0) as [[vs|e] wd].
      + unfold apply_computeFn in E0.
        destruct (apply_fn fn vs (objects wd)) as [[v0|p] h] eqn:Ea.
        * destruct isT; cbn [when] in E0;
            [rewrite cacheValue_run in E0 by exact Hs|]; discriminate.
        * injection E0 as _ <-. right. right. exists vs, wd, p, h. auto.
      + injection E0 as <- <-. auto.
    - injection E0 as _ <-. auto. }
  destruct (__cachedGetters w0 !! _) as [en|] eqn:Ec; [|eauto].
  destruct (isImmutable state); [|injection E as _ <-; auto].
  destruct (bool_decide _); [|eauto].
  unfold get_cache in E. rewrite Ec in E. cbn in E.
  destruct (deref_run (value en) w0) as [E'|(l & p & _ & _ & E')];
    rewrite E' in E; discriminate.
Qed.

Lemma start_tracking_lookup g track w :
  __cachedGetters (start_tracking g track w) !! hashCode g =
  match __cachedGetters w !! hashCode g with
  | Some e => Some e
  | None => if track then Some placeholder else None
  end.
Proof.
  unfold start_tracking. destruct (__cachedGetters w !! hashCode g) as [e|] eqn:Ec.
  - rewrite bool_decide_eq_true_2 by eauto. rewrite andb_false_r. exact Ec.
  - rewrite bool_decide_eq_false_2 by (intros [? ?]; discriminate).
    rewrite andb_true_r. destruct track; cbn [negb __cachedGetters].
    + apply lookup_insert_eq.
    + exact Ec.
Qed.

Lemma start_tracking_rest g track w :
  objects (start_tracking g track w) = objects w /\
  calls (start_tracking g track w) = calls w.
Proof. unfold start_tracking. destruct (track && _); auto. Qed.

Lemma start_tracking_existing g track w e :
  __cachedGetters w !! hashCode g = Some e -> start_tracking g track w = w.
Proof.
  intros Ec. unfold start_tracking. rewrite Ec.
  rewrite bool_decide_eq_true_2 by eauto. rewrite andb_false_r. reflexivity.
Qed.

(** ** Exact hits *)

Lemma same_content_refl (h : heap) (v : jsvalue) : same_content h v v.
Proof. destruct v; reflexivity. Qed.

Lemma deref_result (v : jsvalue) w :
  exists v' w', deref v w = (Ok v', w') /\
    __cachedGetters w' = __cachedGetters w /\ calls w' = calls w /\
    same_content (objects w') v v'.
Proof.
  destruct (deref_run v w) as [E|(l & p & -> & Hl & E)]; rewrite E.
  - exists v, w. auto using same_content_refl.
  - eexists _, _. split; [reflexivity|]. cbn. repeat split.
    rewrite lookup_app_l by (eapply lookup_lt_Some; exact Hl).
    rewrite Hl. symmetry. apply list_lookup_middle. reflexivity.
Qed.


Lemma evaluate_hit state deps fn track w e :
  isImmutable state = true ->
  __cachedGetters w !! hashCode (Getter deps fn) = Some e ->
  stateHashCode e = Some (imm_hashCode state) ->
  evaluate state (Getter deps fn) track w = deref (value e) w.
Proof.
  intros Hs Ec Hh. rewrite evaluate_Getter_start.
  rewrite (start_tracking_existing _ _ _ _ Ec).
  unfold lookup_or_recompute, bind. rewrite isCached_run, Ec, Hs.
  rewrite bool_decide_eq_true_2 by exact Hh.
  unfold get_cache. rewrite Ec. reflexivity.
Qed.


(** ** Failures *)

(** C2, as the code has it: when [evaluate] of a getter fails, an entry the
    getter had is as before, a tracked getter that had none is left with the
    entry of nulls, an untracked one with none; entries of fingerprints of
    no getter in the argument are as before.  (No dependency has the
    getter's own fingerprint.) *)
Theorem failed_evaluate_cache state deps fn track w err w' :
  let g := Getter deps fn in
  hashCode g ∉ flat_map getter_codes deps ->
  evaluate state g track w = (Err err, w') ->
  __cachedGetters w' !! hashCode g =
    match __cachedGetters w !! hashCode g with
    | Some e => Some e
    | None => if track then Some placeholder else None
    end /\
  (forall k, k ∉ getter_codes g ->
     __cachedGetters w' !! k = __cachedGetters w !! k).
Proof.
  intros g Hfresh E. subst g. split.
  - rewrite <- start_tracking_lookup.
    destruct (evaluate_Getter_Err _ _ _ _ _ _ _ E)
      as [->|[Ed|(vs & wd & p & h & Ed & _ & ->)]].
    + reflexivity.
    + eapply mapM_frame; [exact Hfresh|exact Ed].
    + cbn [__cachedGetters]. eapply mapM_frame; [exact Hfresh|exact Ed].
  - intros k Hk. eapply evaluate_frame; [exact Hk|exact E].
Qed.

(** An entry that records another state hash never yields the cached value
    without work: an evaluation that returns has applied the compute
    function. *)
Lemma stale_entry_recomputes state deps fn track w e v w' :
  __cachedGetters w !! hashCode (Getter deps fn) = Some e ->
  stateHashCode e <> Some (imm_hashCode state) ->
  evaluate state (Getter deps fn) track w = (Ok v, w') ->
  exists vs wd h,
    apply_fn fn vs (objects wd) = (Returns v, h) /\
    calls w' = calls wd ++ [(Getter deps fn, vs)].
Proof.
  intros Ec Hne E.
  destruct (evaluate_Getter_Ok _ _ _ _ _ _ _ E) as (_ & [Hit|Miss]).
  - destruct Hit as (e' & Ec' & He' & _).
    rewrite (start_tracking_existing _ _ _ _ Ec), Ec in Ec'.
    injection Ec' as <-. contradiction.
  - destruct Miss as (vs & wd & h & _ & _ & Ea & ->).
    exists vs, wd, h. auto.
Qed.

(** ** Dereferencing *)

(** A value of the immutable representation is handed out as it is. *)
Lemma deref_immutable (v : jsvalue) w :
  isImmutable v = true -> deref v w = (Ok v, w).
Proof. intros Hv. unfold deref. rewrite Hv. reflexivity. Qed.

(** A plain composite read out of the cache is handed out as a new object:
    a write to the copy leaves the cached object as it was. *)
Lemma deref_copy_is_private (l : nat) (p q : plain) w :
  objects w !! l = Some p ->
  exists l' w', deref (VRef l) w = (Ok (VRef l'), w') /\ l' <> l /\
                objects (mutate l' q w') !! l = Some p.
Proof.
  intros Hl. pose proof (lookup_lt_Some _ _ _ Hl) as Hlt.
  exists (length (objects w)), (World (__cachedGetters w) (objects w ++ [p]) (calls w)).
  unfold deref, cloneDeep. cbn. rewrite Hl. split; [reflexivity|].
  split; [lia|]. rewrite list_lookup_insert_ne by lia.
  rewrite lookup_app_l by exact Hlt. exact Hl.
Qed.

(** The value a first tracked evaluation returns is the very value it puts
    in the cache. *)
Lemma computed_result_is_cached state deps fn w (v : jsvalue) w' :
  __cachedGetters w !! hashCode (Getter deps fn) = None ->
  evaluate state (Getter deps fn) true w = (Ok v, w') ->
  value <$> (__cachedGetters w' !! hashCode (Getter deps fn)) = Some v.
Proof.
  intros Hnone E.
  destruct (evaluate_Getter_Ok _ _ _ _ _ _ _ E) as (_ & [Hit|Miss]).
  - destruct Hit as (e & Ec & He & _).
    rewrite start_tracking_lookup, Hnone in Ec. injection Ec as <-. discriminate.
  - destruct Miss as (vs & wd & h & _ & _ & _ & ->). cbn [orb __cachedGetters].
    rewrite lookup_insert_eq. reflexivity.
Qed.

End Properties.

(** * The model run on concrete inputs *)

(** C1: a tracked getter whose entry records the hash of [state1] is
    evaluated against [state2], which has another hash and the same value
    at the getter's only dependency.  The test of line 133 looks the
    fingerprint up in the state, finds nothing, and the compute function is
    applied a second time. *)
Theorem stale_entry_applies_computeFn_again :
  @evaluate demo state1 getA true (new_Evaluator []) = (Ok (VNum 1), world1) /\
  __cachedGetters world1 !! demo_hashCode getA =
    Some (Entry (Some (demo_stateHash state1)) (VNum 1) (VList [VNum 1])) /\
  calls world1 = [(getA, [VNum 1])] /\
  demo_stateHash state2 <> demo_stateHash state1 /\
  demo_toImmutable (objects world1) [demo_getIn state2 [KStr "a"]] = VList [VNum 1] /\
  fst (@evaluate demo state2 getA true world1) = Ok (VNum 1) /\
  calls (snd (@evaluate demo state2 getA true world1)) =
    [(getA, [VNum 1]); (getA, [VNum 1])].
Proof.
  repeat split; try (vm_compute; reflexivity).
  vm_compute. discriminate.
Qed.

(** On a state that does have the fingerprint among its keys the branch of
    lines 95-110 is entered and stops at the unbound identifier. *)
Lemma stale_branch_throws :
  @evaluate demo state3 getA true world1 = (Err ReferenceError, world1).
Proof. vm_compute. reflexivity. Qed.

(** C2 fails as stated: the compute function of a tracked getter without an
    entry throws, and the cache has an entry for the getter afterwards. *)
Lemma failed_evaluate_leaves_entry :
  exists w',
    @evaluate demo state1 getBoom true (new_Evaluator []) =
      (Err (Thrown (VStr "boom")), w') /\
    __cachedGetters (new_Evaluator []) !! demo_hashCode getBoom = None /\
    __cachedGetters w' !! demo_hashCode getBoom = Some placeholder /\
    __cachedGetters w' <> __cachedGetters (new_Evaluator []).
Proof.
  eexists. split; [vm_compute; reflexivity|].
  split; [reflexivity|]. split; [vm_compute; reflexivity|].
  intros Heq.
  assert (Some placeholder = (None : option entry)) as Habs; [|discriminate].
  change (None : option entry)
    with (__cachedGetters (new_Evaluator []) !! demo_hashCode getBoom).
  rewrite <- Heq. vm_compute. reflexivity.
Qed.

(** C3: the array a first evaluation returns is the object the cache holds.
    After the caller pushes onto it, the next evaluation for the same getter
    and state hands out a copy of the changed array. *)
Theorem fresh_result_shares_cached_object :
  @evaluate demo state1 getArr true (new_Evaluator []) = (Ok (VRef 0), worldArr) /\
  value <$> (__cachedGetters worldArr !! demo_hashCode getArr) = Some (VRef 0) /\
  objects worldArr !! 0%nat = Some (PArr [PNum 1]) /\
  (exists w2, @evaluate demo state1 getArr true worldArr = (Ok (VRef 1), w2) /\
              objects w2 !! 1%nat = Some (PArr [PNum 1])) /\
  (exists w2, @evaluate demo state1 getArr true worldArr_mutated = (Ok (VRef 1), w2) /\
              objects w2 !! 1%nat = Some (PArr [PNum 1; PNum 2])).
Proof.
  repeat split; try (vm_compute; reflexivity);
    eexists; split; vm_compute; reflexivity.
Qed.

(** ** The theorems at concrete inputs *)

Lemma evaluate_InvalidArgument_witness :
  @evaluate demo state1 (Neither VNull) true world1 = (Err InvalidArgument, world1) /\
  fst (@evaluate demo state1 getNested true world1) <> Err InvalidArgument.
Proof.
  destruct (@evaluate_InvalidArgument demo state1 true world1) as [H1 H2].
  split; [apply H1; reflexivity | apply H2; reflexivity].
Defined.


Lemma untrack_removes_one_entry_witness :
  __cachedGetters (@untrack demo getA world1) !! demo_hashCode getA = None /\
  @evaluate demo state2 getA true (@untrack demo getA world1) =
  @first_evaluation demo state2 [KeyPath [KStr "a"]] 0 true (@untrack demo getA world1).
Proof.
  pose proof (@untrack_removes_one_entry demo state2 [KeyPath [KStr "a"]] 0 true world1)
    as H.
  cbv zeta in H. destruct H as (H1 & _ & H3).
  split; [exact H1 | apply H3; vm_compute; reflexivity].
Defined.

Lemma reset_clears_cache_witness :
  __cachedGetters (reset world1) = ∅ /\
  @evaluate demo state1 getA true (reset world1) =
  @first_evaluation demo state1 [KeyPath [KStr "a"]] 0 true (reset world1).
Proof.
  destruct (@reset_clears_cache demo state1 [KeyPath [KStr "a"]] 0 true world1)
    as (H1 & H2).
  split; [exact H1 | apply H2; vm_compute; reflexivity].
Defined.

Lemma untrack_idempotent_witness :
  @untrack demo getNested world1 = world1 /\
  @untrack demo getA (@untrack demo getA world1) = @untrack demo getA world1.
Proof.
  split.
  - apply (proj1 (@untrack_idempotent demo getNested world1)).
    vm_compute. reflexivity.
  - apply (proj2 (@untrack_idempotent demo getA world1)).
Defined.


Lemma failed_evaluate_cache_witness :
  __cachedGetters (snd (@evaluate demo state1 getBoomNested true (new_Evaluator [])))
    !! demo_hashCode getBoomNested = Some placeholder /\
  (forall k, k ∉ @getter_codes demo getBoomNested ->
     __cachedGetters (snd (@evaluate demo state1 getBoomNested true (new_Evaluator [])))
       !! k = __cachedGetters (new_Evaluator []) !! k).
Proof.
  apply (@failed_evaluate_cache demo state1 [getA] 1 true (new_Evaluator [])
           (Thrown (VStr "boom"))
           (snd (@evaluate demo state1 getBoomNested true (new_Evaluator [])))).
  - intros Hin. apply list_elem_of_In in Hin. vm_compute in Hin.
    destruct Hin as [Hin|[]]. discriminate.
  - vm_compute. reflexivity.
Defined.

(** * Further properties of the evaluator *)

Section Coverage.
Context `{ext : Externals}.

Implicit Types (state : jsvalue) (x g : kpg) (w : world) (track : bool).

Lemma evaluate_keeps_entry state track x (k : Z) w r w' :
  evaluate state x track w = (r, w') ->
  is_Some (__cachedGetters w !! k) -> is_Some (__cachedGetters w' !! k).
Proof.
  intros E.
  apply (evaluate_preserves
           (fun w w' => is_Some (__cachedGetters w !! k) ->
                        is_Some (__cachedGetters w' !! k))
           (fun _ => True)) with (state := state) (track := track)
           (x := x) (r := r); try exact E; auto.
  - intros g e w0 _ Hk. cbn. apply lookup_insert_is_Some.
    destruct (decide (hashCode g = k)); auto.
  - apply Forall_forall. auto.
Qed.

Lemma mapM_keeps_entry state track (deps : list kpg) (k : Z) w r w' :
  mapM (fun dep => evaluate state dep track) deps w = (r, w') ->
  is_Some (__cachedGetters w !! k) -> is_Some (__cachedGetters w' !! k).
Proof.
  intros E.
  apply (mapM_preserves
           (fun w w' => is_Some (__cachedGetters w !! k) ->
                        is_Some (__cachedGetters w' !! k)))
    with (f := fun dep => evaluate state dep track) (l := deps) (r := r);
    try exact E; auto.
  apply Forall_forall. intros d _ w0 r0 w0' E0. eapply evaluate_keeps_entry, E0.
Qed.

(** ** The steps of an evaluation, exactly

    The entry of nulls is written only for a tracked getter that has no
    entry; any other write replaces an entry that exists by one that
    records the hash of the state; the heap changes by a copy appended or
    by what a compute function does. *)
Section Steps.
Variable state : jsvalue.
Variable track : bool.
Variable R : world -> world -> Prop.
Variable P : kpg -> Prop.
Hypothesis R_refl : forall w, R w w.
Hypothesis R_trans : forall w1 w2 w3, R w1 w2 -> R w2 w3 -> R w1 w3.
Hypothesis R_start : forall g w, P g -> track = true ->
  __cachedGetters w !! hashCode g = None ->
  R w (World (<[hashCode g := placeholder]> (__cachedGetters w)) (objects w) (calls w)).
Hypothesis R_store : forall g v a w, P g ->
  is_Some (__cachedGetters w !! hashCode g) ->
  R w (World (<[hashCode g := Entry (Some (imm_hashCode state)) v a]> (__cachedGetters w))
             (objects w) (calls w)).
Hypothesis R_alloc : forall w p,
  R w (World (__cachedGetters w) (objects w ++ [p]) (calls w)).
Hypothesis R_apply : forall deps fn vs w, P (Getter deps fn) ->
  R w (World (__cachedGetters w) (snd (apply_fn fn vs (objects w)))
             (calls w ++ [(Getter deps fn, vs)])).

Lemma start_tracking_step g w : P g -> R w (start_tracking g track w).
Proof.
  intros Hg. unfold start_tracking.
  destruct (__cachedGetters w !! hashCode g) as [e|] eqn:Ec.
  - rewrite bool_decide_eq_true_2 by eauto. rewrite andb_false_r. apply R_refl.
  - rewrite bool_decide_eq_false_2 by (intros [? ?]; discriminate).
    rewrite andb_true_r. destruct track eqn:Et; cbn [negb]; [|apply R_refl].
    apply R_start; auto.
Qed.

Lemma evaluate_by_steps x :
  Forall P (getters_in x) ->
  forall w r w', evaluate state x track w = (r, w') -> R w w'.
Proof.
  induction x as [path|deps fn IH|v] using kpg_nested_ind; intros HP w r w' E.
  - cbn in E. destruct (truthy state && isImmutable state);
      injection E as _ <-; apply R_refl.
  - cbn [getters_in] in HP. apply Forall_cons in HP as [Hg Hsub].
    pose proof (start_tracking_step _ w Hg) as R0.
    assert (Forall (fun d => forall w r w', evaluate state d track w = (r, w') -> R w w')
              deps) as Hdeps.
    { apply Forall_flat_map in Hsub. rewrite Forall_forall in IH, Hsub.
      apply Forall_forall. intros d Hd. apply IH; [exact Hd|].
      apply Hsub. exact Hd. }
    eapply R_trans; [exact R0|]. destruct r as [v|err].
    + destruct (evaluate_Getter_Ok _ _ _ _ _ _ _ E) as (_ & [Hit|Miss]).
      * destruct Hit as (e & _ & _ & Ed).
        destruct (deref_run (value e) (start_tracking (Getter deps fn) track w))
          as [E'|(l & p & _ & _ & E')]; rewrite E' in Ed; injection Ed as _ <-;
          [apply R_refl | apply R_alloc].
      * destruct Miss as (vs & wd & h & _ & Ed & Ea & ->).
        pose proof (mapM_preserves R R_refl R_trans _ _ Hdeps _ _ _ Ed) as Rd.
        eapply R_trans; [exact Rd|].
        pose proof (R_apply deps fn vs wd Hg) as Ra. rewrite Ea in Ra. cbn [snd] in Ra.
        eapply R_trans; [exact Ra|].
        destruct (track || _) eqn:Et; [|apply R_refl].
        apply (R_store (Getter deps fn) v (toImmutable h vs)
                 (World (__cachedGetters wd) h (calls wd ++ [(Getter deps fn, vs)])) Hg).
        cbn [__cachedGetters]. eapply mapM_keeps_entry; [exact Ed|].
        rewrite start_tracking_lookup.
        destruct (__cachedGetters w !! hashCode (Getter deps fn)) as [e|] eqn:Ec; [eauto|].
        rewrite bool_decide_eq_false_2 in Et by (intros [? ?]; discriminate).
        rewrite orb_false_r in Et. rewrite Et. eauto.
    + destruct (evaluate_Getter_Err _ _ _ _ _ _ _ E)
        as [->|[Ed|(vs & wd & p & h & Ed & Ea & ->)]].
      * apply R_refl.
      * exact (mapM_preserves R R_refl R_trans _ _ Hdeps _ _ _ Ed).
      * pose proof (mapM_preserves R R_refl R_trans _ _ Hdeps _ _ _ Ed) as Rd.
        eapply R_trans; [exact Rd|].
        pose proof (R_apply deps fn vs wd Hg) as Ra. rewrite Ea in Ra. exact Ra.
  - cbn in E. injection E as _ <-. apply R_refl.
Qed.

End Steps.

(** ** What [evaluate] leaves alone *)

(** X1: whatever the outcome, [evaluate] leaves every cache entry alone
    whose key is not the fingerprint of a getter occurring in its
    argument. *)
Theorem evaluate_touches_own_entries_only state x track (k : Z) w :
  k ∉ getter_codes x ->
  __cachedGetters (snd (evaluate state x track w)) !! k = __cachedGetters w !! k.
Proof.
  intros Hk. destruct (evaluate state x track w) as [r w'] eqn:E.
  eapply evaluate_frame; [exact Hk|exact E].
Qed.

Lemma evaluate_never_removes_entries_aux state x track (k : Z) w :
  is_Some (__cachedGetters w !! k) ->
  is_Some (__cachedGetters (snd (evaluate state x track w)) !! k).
Proof.
  destruct (evaluate state x track w) as [r w'] eqn:E.
  eapply evaluate_keeps_entry, E.
Qed.

Lemma tracked_retry_is_first_attempt_aux state deps fn w :
  __cachedGetters w !! hashCode (Getter deps fn) = None ->
  evaluate state (Getter deps fn) true
    (World (<[hashCode (Getter deps fn) := placeholder]> (__cachedGetters w))
           (objects w) (calls w)) =
  evaluate state (Getter deps fn) true w.
Proof.
  intros Hnone. rewrite !evaluate_Getter_start. cbn [orb].
  f_equal. unfold start_tracking. cbn [__cachedGetters objects calls].
  rewrite lookup_insert_eq, Hnone.
  rewrite bool_decide_eq_true_2 by eauto.
  rewrite bool_decide_eq_false_2 by (intros [? ?]; discriminate).
  reflexivity.
Qed.

(** X2: [evaluate] never removes an entry from the cache. *)
Theorem evaluate_never_removes_entries state x track (k : Z) w :
  is_Some (__cachedGetters w !! k) ->
  is_Some (__cachedGetters (snd (evaluate state x track w)) !! k).
Proof.
  intros Hk. destruct (evaluate state x track w) as [r w'] eqn:E. cbn [snd].
  exact (evaluate_keeps_entry _ _ _ _ _ _ _ E Hk).
Qed.

(** X3: with [track] unset, [evaluate] creates no entry: the cache has the
    same keys after the call as before, whatever the outcome. *)
Theorem untracked_evaluate_keeps_keys state x (k : Z) w :
  is_Some (__cachedGetters (snd (evaluate state x false w)) !! k) <->
  is_Some (__cachedGetters w !! k).
Proof.
  destruct (evaluate state x false w) as [r w'] eqn:E. cbn [snd].
  apply (evaluate_by_steps state false
           (fun w w' => is_Some (__cachedGetters w' !! k) <->
                        is_Some (__cachedGetters w !! k))
           (fun _ => True)) with (x := x) (r := r); try exact E.
  - reflexivity.
  - intros w1 w2 w3 H12 H23. rewrite H23. exact H12.
  - discriminate.
  - intros g v a w0 _ Hg. cbn. rewrite lookup_insert_is_Some.
    split; [intros [<-|[_ Hk]]; assumption|].
    intros Hk. destruct (decide (hashCode g = k)); auto.
  - reflexivity.
  - reflexivity.
  - apply Forall_forall. auto.
Qed.

(** X4: with [track] unset and no entry for any getter of the argument, the
    cache after [evaluate] is the cache before: nothing is memoized. *)
Theorem untracked_evaluate_keeps_cache state x w :
  (forall g, g ∈ getters_in x -> __cachedGetters w !! hashCode g = None) ->
  __cachedGetters (snd (evaluate state x false w)) = __cachedGetters w.
Proof.
  intros Hnone. destruct (evaluate state x false w) as [r w'] eqn:E. cbn [snd].
  apply (evaluate_by_steps state false
           (fun w1 w2 => __cachedGetters w1 = __cachedGetters w ->
                         __cachedGetters w2 = __cachedGetters w)
           (fun g => __cachedGetters w !! hashCode g = None))
    with (x := x) (r := r) (w := w); try exact E; auto.
  - discriminate.
  - intros g v a w0 Hg [e He] Heq. rewrite Heq, Hg in He. discriminate.
  - apply Forall_forall. exact Hnone.
Qed.

(** X5: an entry found in the cache after [evaluate] was there before, or
    is the entry of nulls of a tracked call, or records the hash of the
    state the call was given. *)
Theorem evaluate_entries_record_state state x track (k : Z) (e : entry) w :
  __cachedGetters (snd (evaluate state x track w)) !! k = Some e ->
  __cachedGetters w !! k = Some e \/
  (track = true /\ e = placeholder) \/
  stateHashCode e = Some (imm_hashCode state).
Proof.
  destruct (evaluate state x track w) as [r w'] eqn:E. cbn [snd]. revert k e.
  apply (evaluate_by_steps state track
           (fun w w' => forall k e, __cachedGetters w' !! k = Some e ->
              __cachedGetters w !! k = Some e \/
              (track = true /\ e = placeholder) \/
              stateHashCode e = Some (imm_hashCode state))
           (fun _ => True)) with (x := x) (r := r); try exact E; auto.
  - intros w1 w2 w3 H12 H23 k e He.
    destruct (H23 k e He) as [He2|Hnew]; [|auto]. exact (H12 k e He2).
  - intros g w0 _ Ht _ k e He. cbn in He.
    destruct (decide (hashCode g = k)) as [<-|Hne].
    + rewrite lookup_insert_eq in He. injection He as <-. auto.
    + rewrite lookup_insert_ne in He by exact Hne. auto.
  - intros g v a w0 _ _ k e He. cbn in He.
    destruct (decide (hashCode g = k)) as [<-|Hne].
    + rewrite lookup_insert_eq in He. injection He as <-. auto.
    + rewrite lookup_insert_ne in He by exact Hne. auto.
  - apply Forall_forall. auto.
Qed.

(** X6: when the compute functions leave the existing plain objects as they
    are, so does [evaluate]: it only adds copies. *)
Theorem evaluate_keeps_objects state x track w :
  (forall fn vs (h : heap) l p,
     h !! l = Some p -> snd (apply_fn fn vs h) !! l = Some p) ->
  forall (l : nat) (p : plain),
    objects w !! l = Some p ->
    objects (snd (evaluate state x track w)) !! l = Some p.
Proof.
  intros Hpure. destruct (evaluate state x track w) as [r w'] eqn:E. cbn [snd].
  apply (evaluate_by_steps state track
           (fun w w' => forall (l : nat) (p : plain),
              objects w !! l = Some p -> objects w' !! l = Some p)
           (fun _ => True)) with (x := x) (r := r); try exact E; auto.
  - intros w0 p l q Hl. cbn. apply lookup_app_l_Some. exact Hl.
  - intros deps fn vs w0 _ l p Hl. cbn. apply Hpure. exact Hl.
  - apply Forall_forall. auto.
Qed.

(** ** How often compute functions are applied *)

Lemma mapM_calls_bound state track (deps : list kpg) :
  Forall (fun d => forall w r w', evaluate state d track w = (r, w') ->
            exists log, calls w' = calls w ++ log /\
                        (length log <= length (getters_in d))%nat) deps ->
  forall w r w', mapM (fun dep => evaluate state dep track) deps w = (r, w') ->
    exists log, calls w' = calls w ++ log /\
                (length log <= length (flat_map getters_in deps))%nat.
Proof.
  induction 1 as [|d deps Hd _ IH]; intros w r w' E.
  - cbn in E. injection E as _ <-. exists []. rewrite app_nil_r. auto.
  - rewrite mapM_cons in E. unfold bind in E.
    destruct (evaluate state d track w) as [[v|e] wa] eqn:Ea;
      destruct (Hd _ _ _ Ea) as (la & Ela & Hla).
    + destruct (mapM _ deps wa) as [rb wb] eqn:Eb.
      destruct (IH _ _ _ Eb) as (lb & Elb & Hlb).
      assert (w' = wb) as -> by (destruct rb; injection E as _ <-; reflexivity).
      exists (la ++ lb). rewrite Elb, Ela, app_assoc. split; [reflexivity|].
      cbn [flat_map]. rewrite !length_app. lia.
    + injection E as _ <-. exists la. split; [exact Ela|].
      cbn [flat_map]. rewrite length_app. lia.
Qed.

Lemma evaluate_calls_bound state track x :
  forall w r w', evaluate state x track w = (r, w') ->
    exists log, calls w' = calls w ++ log /\
                (length log <= length (getters_in x))%nat.
Proof.
  induction x as [path|deps fn IH|v] using kpg_nested_ind; intros w r w' E.
  - cbn in E. destruct (truthy state && isImmutable state);
      injection E as _ <-; exists []; rewrite app_nil_r; cbn; auto.
  - pose proof (mapM_calls_bound state track deps IH) as Hdeps.
    pose proof (proj2 (start_tracking_rest (Getter deps fn) track w)) as Hc0.
    cbn [getters_in length]. destruct r as [v|err].
    + destruct (evaluate_Getter_Ok _ _ _ _ _ _ _ E) as (_ & [Hit|Miss]).
      * destruct Hit as (e & _ & _ & Ed).
        destruct (deref_result (value e) (start_tracking (Getter deps fn) track w))
          as (v' & w'' & E' & _ & Hl & _).
        rewrite E' in Ed. injection Ed as _ <-.
        exists []. rewrite app_nil_r, Hl, Hc0. split; [reflexivity|cbn; lia].
      * destruct Miss as (vs & wd & h & _ & Ed & _ & ->).
        destruct (Hdeps _ _ _ Ed) as (ld & Eld & Hld).
        exists (ld ++ [(Getter deps fn, vs)]). cbn [calls].
        rewrite Eld, Hc0, app_assoc. split; [reflexivity|].
        rewrite length_app. cbn. lia.
    + destruct (evaluate_Getter_Err _ _ _ _ _ _ _ E)
        as [->|[Ed|(vs & wd & p & h & Ed & _ & ->)]].
      * exists []. rewrite app_nil_r, Hc0. split; [reflexivity|cbn; lia].
      * destruct (Hdeps _ _ _ Ed) as (ld & Eld & Hld).
        exists ld. rewrite Eld, Hc0. split; [reflexivity|lia].
      * destruct (Hdeps _ _ _ Ed) as (ld & Eld & Hld).
        exists (ld ++ [(Getter deps fn, vs)]). cbn [calls].
        rewrite Eld, Hc0, app_assoc. split; [reflexivity|].
        rewrite length_app. cbn. lia.
  - cbn in E. injection E as _ <-. exists []. rewrite app_nil_r. cbn. auto.
Qed.

(** X7: an evaluation applies compute functions of getters occurring in
    its argument only, and at most as many times as getters occur in it;
    for a key path, none. *)
Theorem evaluate_applies_each_getter_at_most_once state x track w :
  exists log,
    calls (snd (evaluate state x track w)) = calls w ++ log /\
    Forall (fun c => fst c ∈ getters_in x) log /\
    (length log <= length (getters_in x))%nat.
Proof.
  destruct (evaluate state x track w) as [r w'] eqn:E. cbn [snd].
  destruct (evaluate_calls _ _ _ _ _ _ E) as (l1 & E1 & F1).
  destruct (evaluate_calls_bound _ _ _ _ _ _ E) as (l2 & E2 & B2).
  exists l1. split; [exact E1|]. split; [exact F1|].
  rewrite E1 in E2. apply app_inv_head in E2. subst l2. exact B2.
Qed.

(** ** Entries and hits *)

(** X8: when a getter is tracked, or has an entry already, and its
    evaluation returns, [__isCached] holds of the getter and the state
    afterwards. *)
Theorem evaluated_getter_is_cached state deps fn track w (v : jsvalue) w' :
  let g := Getter deps fn in
  track = true \/ is_Some (__cachedGetters w !! hashCode g) ->
  evaluate state g track w = (Ok v, w') ->
  __isCached state g w' = (Ok true, w').
Proof.
  intros g Htr E. subst g. rewrite isCached_run.
  destruct (evaluate_Getter_Ok _ _ _ _ _ _ _ E) as (Hs & [Hit|Miss]).
  - destruct Hit as (e & Ec & He & Ed).
    destruct (deref_result (value e) (start_tracking (Getter deps fn) track w))
      as (v' & w'' & E' & Hc & _ & _).
    rewrite E' in Ed. injection Ed as _ <-. rewrite Hc, Ec, Hs.
    rewrite bool_decide_eq_true_2 by exact He. reflexivity.
  - destruct Miss as (vs & wd & h & _ & _ & _ & ->).
    assert (track || bool_decide
              (is_Some (__cachedGetters w !! hashCode (Getter deps fn))) = true)
      as ->.
    { destruct Htr as [->|Hsome]; [reflexivity|].
      rewrite bool_decide_eq_true_2 by exact Hsome. apply orb_true_r. }
    cbn [__cachedGetters]. rewrite lookup_insert_eq, Hs. cbn [stateHashCode].
    rewrite bool_decide_eq_true_2 by reflexivity. reflexivity.
Qed.

(** X9: an entry with a null state hash is never served: an evaluation
    that returns over such an entry has applied the compute function, and
    its result is what the function returned. *)
Theorem placeholder_is_never_served state deps fn track w (e : entry)
    (v : jsvalue) w' :
  let g := Getter deps fn in
  __cachedGetters w !! hashCode g = Some e ->
  stateHashCode e = None ->
  evaluate state g track w = (Ok v, w') ->
  exists vs wd h,
    apply_fn fn vs (objects wd) = (Returns v, h) /\
    calls w' = calls wd ++ [(g, vs)].
Proof.
  intros g Ec He E. eapply stale_entry_recomputes; [exact Ec| |exact E].
  rewrite He. discriminate.
Qed.

(** X10: a tracked evaluation of a getter that has just the entry of nulls
    is the tracked evaluation of the getter without an entry: the entry a
    failed call leaves behind does not change a retry. *)
Theorem tracked_retry_is_first_attempt state deps fn w :
  let g := Getter deps fn in
  __cachedGetters w !! hashCode g = None ->
  evaluate state g true
    (World (<[hashCode g := placeholder]> (__cachedGetters w)) (objects w) (calls w)) =
  evaluate state g true w.
Proof.
  intros g Hnone. subst g. rewrite !evaluate_Getter_start. cbn [orb].
  f_equal. unfold start_tracking. cbn [__cachedGetters objects calls].
  rewrite lookup_insert_eq, Hnone.
  rewrite bool_decide_eq_true_2 by eauto.
  rewrite bool_decide_eq_false_2 by (intros [? ?]; discriminate).
  reflexivity.
Qed.

(** X11: [__cacheValue] and [evaluate] round-trip: once a value is cached
    for a getter against a state tree, [__isCached] holds, [evaluate] of
    the getter against that state is the dereferenced value whatever
    [track] and the dependencies are, and no other entry has changed. *)
Theorem cacheValue_then_evaluate state deps fn (vs : list jsvalue) (v : jsvalue)
    track w :
  let g := Getter deps fn in
  isImmutable state = true ->
  exists w1,
    __cacheValue state g vs v w = (Ok tt, w1) /\
    __isCached state g w1 = (Ok true, w1) /\
    evaluate state g track w1 = deref v w1 /\
    (forall k, k <> hashCode g -> __cachedGetters w1 !! k = __cachedGetters w !! k).
Proof.
  intros g Hs. subst g. eexists. split; [apply cacheValue_run; exact Hs|].
  split; [|split].
  - rewrite isCached_run. cbn [__cachedGetters]. rewrite lookup_insert_eq, Hs.
    cbn [stateHashCode]. rewrite bool_decide_eq_true_2 by reflexivity. reflexivity.
  - rewrite (evaluate_hit state deps fn track _
               (Entry (Some (imm_hashCode state)) v (toImmutable (objects w) vs)));
      [reflexivity|exact Hs| |reflexivity].
    cbn [__cachedGetters]. apply lookup_insert_eq.
  - intros k Hk. cbn [__cachedGetters]. apply lookup_insert_ne. congruence.
Qed.

(** ** Errors *)

(** X12: when the getter has no exact hit and the test of lines 130-136 is
    positive (the state has the getter's fingerprint among its own keys),
    [evaluate] ends in the reference error of line 99, with the cache as the
    tracking of lines 77-88 left it. *)
Theorem stale_test_positive_throws state deps fn track w :
  let g := Getter deps fn in
  (forall e, __cachedGetters w !! hashCode g = Some e ->
             stateHashCode e <> Some (imm_hashCode state)) ->
  fst (__hasStaleValue state g w) = Ok true ->
  evaluate state g track w = (Err ReferenceError, start_tracking g track w).
Proof.
  intros g Hne Hgate. subst g.
  pose proof (hasStaleValue_immutable _ _ _ _ Hgate) as Hs.
  rewrite evaluate_Getter_start. unfold lookup_or_recompute, bind.
  rewrite isCached_after_start by assumption.
  rewrite (hasStaleValue_any_world _ _ _ _ _ Hgate). reflexivity.
Qed.

(** X13: against a state that is not an Immutable collection a getter
    cannot be evaluated: the call ends in a type error, with the cache as
    the tracking of lines 77-88 left it.  (A key path evaluates to the
    state itself there.) *)
Theorem getter_on_plain_state_throws state deps fn track w :
  let g := Getter deps fn in
  isImmutable state = false ->
  evaluate state g track w = (Err TypeError, start_tracking g track w).
Proof.
  intros g Hs. subst g. rewrite evaluate_Getter_start.
  generalize (start_tracking (Getter deps fn) track w). intros w0.
  unfold lookup_or_recompute, bind. rewrite isCached_run, Hs.
  destruct (__cachedGetters w0 !! _); [reflexivity|].
  unfold __hasStaleValue, bind, state_has. rewrite Hs. reflexivity.
Qed.

Lemma mapM_app_fail {A B} (f : A -> M B) (l1 l2 : list A) (a : A)
    w (bs : list B) w1 (e : error) w2 :
  mapM f l1 w = (Ok bs, w1) ->
  f a w1 = (Err e, w2) ->
  mapM f (l1 ++ a :: l2) w = (Err e, w2).
Proof.
  revert w bs. induction l1 as [|a1 l1 IH]; intros w bs E1 Ea.
  - cbn in E1. injection E1 as _ <-. cbn. unfold bind. rewrite Ea. reflexivity.
  - rewrite mapM_cons in E1. rewrite <- app_comm_cons, mapM_cons.
    unfold bind in *. destruct (f a1 w) as [[b|e1] wa]; [|discriminate].
    destruct (mapM f l1 wa) as [[bs1|e1] wb] eqn:E1'; [|discriminate].
    injection E1 as _ <-. rewrite (IH _ _ E1' Ea). reflexivity.
Qed.

(** X14: when a dependency fails, the getter's evaluation ends at once with
    the dependency's error and in the dependency's final world: the
    dependencies after it are not evaluated and the compute function is
    not applied. *)
Theorem failing_dependency_aborts state (before after : list kpg) (d : kpg)
    fn track w (vs : list jsvalue) w1 (e : error) w2 :
  let g := Getter (before ++ d :: after) fn in
  (forall en, __cachedGetters w !! hashCode g = Some en ->
              stateHashCode en <> Some (imm_hashCode state)) ->
  fst (__hasStaleValue state g w) = Ok false ->
  mapM (fun dep => evaluate state dep track) before (start_tracking g track w)
    = (Ok vs, w1) ->
  evaluate state d track w1 = (Err e, w2) ->
  evaluate state g track w = (Err e, w2).
Proof.
  intros g Hne Hgate Hbefore Hd. subst g.
  pose proof (hasStaleValue_immutable _ _ _ _ Hgate) as Hs.
  rewrite evaluate_Getter_start. unfold lookup_or_recompute, bind.
  rewrite isCached_after_start by assumption.
  rewrite (hasStaleValue_any_world _ _ _ _ _ Hgate).
  unfold recompute, bind.
  rewrite (mapM_app_fail _ _ _ _ _ _ _ _ _ Hbefore Hd). reflexivity.
Qed.

(** X15: when the compute function throws, the getter's evaluation ends
    with what was thrown, unchanged; the cache is as the dependencies left
    it and the application is in the log. *)
Theorem throwing_computeFn_propagates state deps fn track w
    (vs : list jsvalue) wd (p : jsvalue) (h : heap) :
  let g := Getter deps fn in
  (forall en, __cachedGetters w !! hashCode g = Some en ->
              stateHashCode en <> Some (imm_hashCode state)) ->
  fst (__hasStaleValue state g w) = Ok false ->
  mapM (fun dep => evaluate state dep track) deps (start_tracking g track w)
    = (Ok vs, wd) ->
  apply_fn fn vs (objects wd) = (Throws p, h) ->
  evaluate state g track w =
  (Err (Thrown p), World (__cachedGetters wd) h (calls wd ++ [(g, vs)])).
Proof.
  intros g Hne Hgate Hdeps Hfn. subst g.
  pose proof (hasStaleValue_immutable _ _ _ _ Hgate) as Hs.
  rewrite evaluate_Getter_start. unfold lookup_or_recompute, bind.
  rewrite isCached_after_start by assumption.
  rewrite (hasStaleValue_any_world _ _ _ _ _ Hgate).
  unfold recompute, bind. rewrite Hdeps. unfold apply_computeFn. rewrite Hfn.
  reflexivity.
Qed.

(** ** [untrack] and [reset] with [evaluate] *)

Lemma getter_codes_Getter deps fn :
  getter_codes (Getter deps fn) =
  hashCode (Getter deps fn) :: flat_map getter_codes deps.
Proof.
  unfold getter_codes. cbn [getters_in map]. f_equal.
  induction deps as [|d deps IH]; [reflexivity|].
  cbn [flat_map]. rewrite map_app, IH. reflexivity.
Qed.

(** X16: [untrack] undoes what an evaluation did to the getter's own entry:
    for a getter that had no entry, evaluating and then untracking it
    leaves every entry as before, except those of the getters among its
    dependencies, whatever the outcome of the evaluation. *)
Theorem untrack_undoes_tracking state deps fn track w (k : Z) :
  let g := Getter deps fn in
  __cachedGetters w !! hashCode g = None ->
  k ∉ flat_map getter_codes deps ->
  __cachedGetters (untrack g (snd (evaluate state g track w))) !! k =
  __cachedGetters w !! k.
Proof.
  intros g Hnone Hk. subst g. unfold untrack. cbn [__cachedGetters].
  destruct (decide (hashCode (Getter deps fn) = k)) as [<-|Hne].
  - rewrite lookup_delete_eq, Hnone. reflexivity.
  - rewrite lookup_delete_ne by exact Hne.
    destruct (evaluate state (Getter deps fn) track w) as [r w'] eqn:E.
    eapply evaluate_frame; [|exact E].
    rewrite getter_codes_Getter. intros Hin.
    apply elem_of_cons in Hin as [Heq|Hin]; [congruence|contradiction].
Qed.

(** X17: [untrack] and [reset] compose as deletions do: two [untrack]s
    commute, and [reset] absorbs an [untrack] before or after it. *)
Theorem untrack_reset_compose g1 g2 w :
  untrack g1 (untrack g2 w) = untrack g2 (untrack g1 w) /\
  untrack g1 (reset w) = reset w /\
  reset (untrack g1 w) = reset w.
Proof.
  unfold untrack, reset. cbn [__cachedGetters objects calls].
  split; [|split].
  - rewrite delete_delete. reflexivity.
  - rewrite delete_empty. reflexivity.
  - reflexivity.
Qed.

(** ** Hits and tracking in any world *)

(** X18: whenever the cache has an entry for the getter that records the
    hash of the state, [evaluate] is the dereference of the entry's value,
    whatever [track] is and whatever the dependencies are (they are neither
    checked nor evaluated); it returns, no compute function is applied and
    the cache is as before. *)
Theorem exact_hit_returns_cached state deps fn track w (e : entry) :
  let g := Getter deps fn in
  isImmutable state = true ->
  __cachedGetters w !! hashCode g = Some e ->
  stateHashCode e = Some (imm_hashCode state) ->
  evaluate state g track w = deref (value e) w /\
  exists v' w',
    evaluate state g track w = (Ok v', w') /\
    __cachedGetters w' = __cachedGetters w /\
    calls w' = calls w /\
    same_content (objects w') (value e) v'.
Proof.
  intros g Hs Ec He. subst g.
  pose proof (evaluate_hit _ _ _ track _ _ Hs Ec He) as Eh.
  split; [exact Eh|].
  destruct (deref_result (value e) w) as (v' & w' & Ed & Hc & Hl & Hsame).
  exists v', w'. rewrite Eh. auto.
Qed.

(** A getter without an entry, on a state whose own keys do not trip the
    test of line 133: the result and the world of the evaluation, spelled
    out. *)
Lemma evaluate_without_entry_result state deps fn track w
    (vs : list jsvalue) wd (v : jsvalue) (h : heap) :
  let g := Getter deps fn in
  __cachedGetters w !! hashCode g = None ->
  fst (__hasStaleValue state g w) = Ok false ->
  mapM (fun dep => evaluate state dep track) deps (start_tracking g track w)
    = (Ok vs, wd) ->
  apply_fn fn vs (objects wd) = (Returns v, h) ->
  evaluate state g track w =
  (Ok v,
   World (if track
          then <[hashCode g := Entry (Some (imm_hashCode state)) v (toImmutable h vs)]>
                 (__cachedGetters wd)
          else __cachedGetters wd)
         h (calls wd ++ [(g, vs)])).
Proof.
  intros g Hnone Hgate Hdeps Hfn. subst g.
  pose proof (hasStaleValue_immutable _ _ _ _ Hgate) as Hs.
  rewrite evaluate_Getter_start. unfold lookup_or_recompute, bind.
  rewrite isCached_after_start; [|exact Hs|rewrite Hnone; discriminate].
  rewrite (hasStaleValue_any_world _ _ _ _ _ Hgate).
  unfold recompute, bind. rewrite Hdeps. unfold apply_computeFn. rewrite Hfn.
  rewrite Hnone. rewrite bool_decide_eq_false_2 by (intros [? ?]; discriminate).
  rewrite orb_false_r. destruct track; cbn [when].
  - rewrite cacheValue_run by exact Hs. reflexivity.
  - reflexivity.
Qed.

(** X19: a tracked evaluation of a getter leaves an entry for the getter,
    whatever its outcome. *)
Theorem tracked_getter_has_entry state deps fn w :
  is_Some (__cachedGetters (snd (evaluate state (Getter deps fn) true w))
             !! hashCode (Getter deps fn)).
Proof.
  destruct (__cachedGetters w !! hashCode (Getter deps fn)) as [e|] eqn:Ec.
  - apply evaluate_never_removes_entries_aux. 
    rewrite Ec. eauto.
  - rewrite <- (tracked_retry_is_first_attempt_aux state deps fn w Ec).
    apply evaluate_never_removes_entries_aux.
    cbn [__cachedGetters]. rewrite lookup_insert_eq. eauto.
Qed.

End Coverage.

(** ** The further properties at concrete inputs *)

Lemma evaluate_touches_own_entries_only_witness :
  __cachedGetters (snd (@evaluate demo state1 getBoom true world1))
    !! demo_hashCode getA =
  __cachedGetters world1 !! demo_hashCode getA.
Proof.
  apply (@evaluate_touches_own_entries_only demo state1 getBoom true
           (demo_hashCode getA) world1).
  intros Hin. apply list_elem_of_In in Hin. vm_compute in Hin.
  destruct Hin as [Hin|[]]. discriminate.
Defined.

Lemma evaluate_never_removes_entries_witness :
  is_Some (__cachedGetters (snd (@evaluate demo state2 getBoom true world1))
             !! demo_hashCode getA).
Proof.
  apply (@evaluate_never_removes_entries demo state2 getBoom true
           (demo_hashCode getA) world1).
  eexists. vm_compute. reflexivity.
Defined.

Lemma untracked_evaluate_keeps_cache_witness :
  __cachedGetters (snd (@evaluate demo state1 getNested false (new_Evaluator [])))
  = __cachedGetters (new_Evaluator []).
Proof.
  apply (@untracked_evaluate_keeps_cache demo state1 getNested (new_Evaluator [])).
  intros g _. apply lookup_empty.
Defined.

Lemma evaluate_entries_record_state_witness :
  __cachedGetters (new_Evaluator []) !! demo_hashCode getA =
    Some (Entry (Some (demo_stateHash state1)) (VNum 1) (VList [VNum 1])) \/
  (true = true /\
   Entry (Some (demo_stateHash state1)) (VNum 1) (VList [VNum 1]) = placeholder) \/
  stateHashCode (Entry (Some (demo_stateHash state1)) (VNum 1) (VList [VNum 1])) =
    Some (demo_stateHash state1).
Proof.
  apply (@evaluate_entries_record_state demo state1 getA true
           (demo_hashCode getA)
           (Entry (Some (demo_stateHash state1)) (VNum 1) (VList [VNum 1]))
           (new_Evaluator [])).
  vm_compute. reflexivity.
Defined.

Lemma evaluate_keeps_objects_witness :
  objects (snd (@evaluate demo state1 getArr true worldArr)) !! 0%nat =
  Some (PArr [PNum 1]).
Proof.
  apply (@evaluate_keeps_objects demo state1 getArr true worldArr).
  - intros fn vs h l p Hl. destruct fn as [|[|[|fn]]]; cbn; try exact Hl.
    apply lookup_app_l_Some. exact Hl.
  - reflexivity.
Defined.

Lemma evaluated_getter_is_cached_witness :
  @__isCached demo state1 getA world1 = (Ok true, world1).
Proof.
  apply (@evaluated_getter_is_cached demo state1 [KeyPath [KStr "a"]] 0 true
           (new_Evaluator []) (VNum 1) world1).
  - left. reflexivity.
  - vm_compute. reflexivity.
Defined.

Lemma placeholder_is_never_served_witness :
  exists vs wd h,
    demo_apply 0 vs (objects wd) = (Returns (VNum 1), h) /\
    calls world1 = calls wd ++ [(getA, vs)].
Proof.
  apply (@placeholder_is_never_served demo state1 [KeyPath [KStr "a"]] 0 true
           worldNulls placeholder (VNum 1) world1).
  - vm_compute. reflexivity.
  - reflexivity.
  - vm_compute. reflexivity.
Defined.

Lemma tracked_retry_is_first_attempt_witness :
  @evaluate demo state1 getBoom true
    (World (<[demo_hashCode getBoom := placeholder]> ∅) [] []) =
  @evaluate demo state1 getBoom true (new_Evaluator []).
Proof.
  apply (@tracked_retry_is_first_attempt demo state1 [KeyPath [KStr "a"]] 1
           (new_Evaluator [])).
  reflexivity.
Defined.

Lemma cacheValue_then_evaluate_witness :
  exists w1,
    @__cacheValue demo state1 getA [VNum 1] (VNum 9) (new_Evaluator []) = (Ok tt, w1) /\
    @__isCached demo state1 getA w1 = (Ok true, w1) /\
    @evaluate demo state1 getA false w1 = deref (VNum 9) w1 /\
    (forall k, k <> demo_hashCode getA ->
       __cachedGetters w1 !! k = __cachedGetters (new_Evaluator []) !! k).
Proof.
  apply (@cacheValue_then_evaluate demo state1 [KeyPath [KStr "a"]] 0
           [VNum 1] (VNum 9) false (new_Evaluator [])).
  reflexivity.
Defined.

Lemma stale_test_positive_throws_witness :
  @evaluate demo state3 getA true world1 =
  (Err ReferenceError, @start_tracking demo getA true world1).
Proof.
  apply (@stale_test_positive_throws demo state3 [KeyPath [KStr "a"]] 0 true world1).
  - intros e He. vm_compute in He. injection He as <-. vm_compute. discriminate.
  - vm_compute. reflexivity.
Defined.

Lemma getter_on_plain_state_throws_witness :
  @evaluate demo (VNum 5) getA true (new_Evaluator []) =
  (Err TypeError, @start_tracking demo getA true (new_Evaluator [])).
Proof.
  apply (@getter_on_plain_state_throws demo (VNum 5) [KeyPath [KStr "a"]] 0 true
           (new_Evaluator [])).
  reflexivity.
Defined.

Lemma failing_dependency_aborts_witness :
  @evaluate demo state1 getBad true (new_Evaluator []) =
  (Err InvalidArgument, @start_tracking demo getBad true (new_Evaluator [])).
Proof.
  apply (@failing_dependency_aborts demo state1 [KeyPath [KStr "a"]] [getA]
           (Neither VNull) 0 true (new_Evaluator []) [VNum 1]
           (@start_tracking demo getBad true (new_Evaluator []))
           InvalidArgument
           (@start_tracking demo getBad true (new_Evaluator []))).
  - intros en He. vm_compute in He. discriminate.
  - vm_compute. reflexivity.
  - vm_compute. reflexivity.
  - reflexivity.
Defined.

Lemma throwing_computeFn_propagates_witness :
  @evaluate demo state1 getBoom true (new_Evaluator []) =
  (Err (Thrown (VStr "boom")),
   World (__cachedGetters (@start_tracking demo getBoom true (new_Evaluator [])))
         [] (calls (@start_tracking demo getBoom true (new_Evaluator []))
             ++ [(getBoom, [VNum 1])])).
Proof.
  apply (@throwing_computeFn_propagates demo state1 [KeyPath [KStr "a"]] 1 true
           (new_Evaluator []) [VNum 1]
           (@start_tracking demo getBoom true (new_Evaluator []))
           (VStr "boom") []).
  - intros en He. vm_compute in He. discriminate.
  - vm_compute. reflexivity.
  - vm_compute. reflexivity.
  - reflexivity.
Defined.

Lemma untrack_undoes_tracking_witness :
  __cachedGetters
    (@untrack demo getBoom (snd (@evaluate demo state1 getBoom true (new_Evaluator []))))
    !! demo_hashCode getBoom =
  __cachedGetters (new_Evaluator []) !! demo_hashCode getBoom.
Proof.
  apply (@untrack_undoes_tracking demo state1 [KeyPath [KStr "a"]] 1 true
           (new_Evaluator []) (demo_hashCode getBoom)).
  - reflexivity.
  - intros Hin. apply list_elem_of_In in Hin. vm_compute in Hin. exact Hin.
Defined.

Lemma exact_hit_returns_cached_witness :
  @evaluate demo state1 getOdd true worldOdd = deref (VNum 7) worldOdd /\
  exists v' w',
    @evaluate demo state1 getOdd true worldOdd = (Ok v', w') /\
    __cachedGetters w' = __cachedGetters worldOdd /\
    calls w' = calls worldOdd /\
    same_content (objects w') (VNum 7) v'.
Proof.
  apply (@exact_hit_returns_cached demo state1 [Neither VNull] 0 true worldOdd
           (Entry (Some (demo_stateHash state1)) (VNum 7) (VList []))).
  - reflexivity.
  - vm_compute. reflexivity.
  - reflexivity.
Defined.

(** ** Runs that contradict a claim *)

(** C6 fails as stated: [getOdd] passes [isGetter], its only dependency is
    neither a key path nor a getter, and its tracked evaluation throws the
    invalid-argument error after the entry of lines 79-84 was written. *)
Lemma unrecognized_dependency_raises :
  isGetter getOdd = true /\
  recognized getOdd = false /\
  @evaluate demo state1 getOdd true (new_Evaluator []) =
    (Err InvalidArgument, @start_tracking demo getOdd true (new_Evaluator [])) /\
  __cachedGetters (new_Evaluator []) !! demo_hashCode getOdd = None /\
  __cachedGetters (@start_tracking demo getOdd true (new_Evaluator []))
    !! demo_hashCode getOdd = Some placeholder.
Proof. repeat split; vm_compute; reflexivity. Qed.

(** C8: [untrack] removes the entry of [getA]; the next evaluation, against
    a state tree that has the getter's fingerprint among its own keys, is
    no recompute.  The dependency has a value there and the compute function
    would return, yet the call ends in the reference error of line 99 with
    nothing applied, tracked or not. *)
Theorem untrack_then_evaluate_on_keyed_state :
  __cachedGetters (@untrack demo getA world1) !! demo_hashCode getA = None /\
  isImmutable state3 = true /\
  demo_getIn state3 [KStr "a"] = VNum 1 /\
  demo_apply 0 [VNum 1] (objects world1) = (Returns (VNum 1), objects world1) /\
  @evaluate demo state3 getA true (@untrack demo getA world1) =
    (Err ReferenceError, @start_tracking demo getA true (@untrack demo getA world1)) /\
  @evaluate demo state3 getA false (@untrack demo getA world1) =
    (Err ReferenceError, @untrack demo getA world1) /\
  calls (@start_tracking demo getA true (@untrack demo getA world1)) = calls world1.
Proof. repeat split; vm_compute; reflexivity. Qed.

(** C9: [reset] empties the cache; the next evaluation of the previously
    tracked [getA], against a state tree that has the getter's fingerprint
    among its own keys, is no recompute.  The dependency has a value there
    and the compute function would return, yet the call ends in the
    reference error of line 99 with nothing applied, tracked or not. *)
Theorem reset_then_evaluate_on_keyed_state :
  __cachedGetters world1 !! demo_hashCode getA =
    Some (Entry (Some (demo_stateHash state1)) (VNum 1) (VList [VNum 1])) /\
  __cachedGetters (reset world1) = ∅ /\
  isImmutable state3 = true /\
  demo_getIn state3 [KStr "a"] = VNum 1 /\
  demo_apply 0 [VNum 1] (objects world1) = (Returns (VNum 1), objects world1) /\
  @evaluate demo state3 getA true (reset world1) =
    (Err ReferenceError, @start_tracking demo getA true (reset world1)) /\
  @evaluate demo state3 getA false (reset world1) =
    (Err ReferenceError, reset world1) /\
  calls (@start_tracking demo getA true (reset world1)) = calls world1.
Proof. repeat split; vm_compute; reflexivity. Qed.
